(** * langmem/utils.py: namespace templates, session formatting and the
      variable healer

    A shallow embedding of [src/langmem/utils.py].  Python [str] values are
    lists of characters (the functions below only compare characters with
    ASCII ones, so eight bits per character are kept), exceptions are values
    of [result], dictionaries are insertion-ordered association lists, and the
    calls to [uuid.uuid4] are an oracle giving the integer of the k-th UUID
    drawn. *)

From Stdlib Require Import List Ascii String Bool Arith Lia NArith Permutation.
Import ListNotations.
Local Open Scope list_scope.

Set Implicit Arguments.

(** ** Strings *)

Definition str := list ascii.

(** String literals of the source are written [lit "..."]. *)
Definition lit (s : string) : str := list_ascii_of_string s.
Arguments lit s%_string.

Definition str_eqb (a b : str) : bool :=
  if list_eq_dec ascii_dec a b then true else false.

(** [needle.startswith] the other way round: [prefixb p s] is
    [s.startswith(p)]. *)
Fixpoint prefixb (p s : str) : bool :=
  match p, s with
  | [], _ => true
  | _ :: _, [] => false
  | a :: p', b :: s' => Ascii.eqb a b && prefixb p' s'
  end.

(** [needle in hay] on Python strings. *)
Fixpoint str_in (needle hay : str) : bool :=
  prefixb needle hay ||
  match hay with
  | [] => false
  | _ :: hay' => str_in needle hay'
  end.

(** [sep.join(parts)]. *)
Fixpoint join (sep : str) (parts : list str) : str :=
  match parts with
  | [] => []
  | [p] => p
  | p :: rest => p ++ sep ++ join sep rest
  end.

Definition mem_char (c : ascii) (s : str) : bool := existsb (Ascii.eqb c) s.

(** ** Exceptions *)

Inductive exn : Type :=
| ValueError (msg : str)
| KeyError (key : str)
| TypeError (msg : str)
| RuntimeError (msg : str).

Inductive result (A : Type) : Type :=
| Ok (a : A)
| Raise (e : exn).
Arguments Ok {A} a.
Arguments Raise {A} e.

Definition bind {A B : Type} (r : result A) (k : A -> result B) : result B :=
  match r with
  | Ok a => k a
  | Raise e => Raise e
  end.

Notation "x <- r ;; k" := (bind r (fun x => k))
  (at level 61, r at next level, right associativity).

(** ** Dictionaries

    A Python [dict] keeps its keys in insertion order; assigning to a key
    that is already there replaces the value and keeps the position. *)

Section Dict.
Variables K V : Type.
Variable eqb : K -> K -> bool.

Definition dict := list (K * V).

Fixpoint dict_get (k : K) (d : dict) : option V :=
  match d with
  | [] => None
  | (k', v) :: d' => if eqb k k' then Some v else dict_get k d'
  end.

Fixpoint dict_set (k : K) (v : V) (d : dict) : dict :=
  match d with
  | [] => [(k, v)]
  | (k', v') :: d' =>
      if eqb k k' then (k', v) :: d' else (k', v') :: dict_set k v d'
  end.

(** [{k: v for k, v in items}]. *)
Definition dict_of (items : list (K * V)) : dict :=
  fold_left (fun d kv => dict_set (fst kv) (snd kv) d) items [].

Definition dict_keys (d : dict) : list K := map fst d.
Definition dict_values (d : dict) : list V := map snd d.
End Dict.

(** ** The two substitutions of [escape]

    [re.sub(r"(?<!\{)\{(?!\{)", "{{", s)] and its twin for the closing brace
    replace each brace [b] that has no [b] right before it and no [b] right
    after it.  A match is one character long and both lookarounds read the
    subject string, so one left-to-right pass that remembers the previous
    character of the subject is the whole substitution. *)

Definition is_char (b : ascii) (o : option ascii) : bool :=
  match o with
  | Some c => Ascii.eqb c b
  | None => false
  end.

Fixpoint sub_lone_from (b : ascii) (prev : option ascii) (s : str) : str :=
  match s with
  | [] => []
  | c :: s' =>
      if Ascii.eqb c b && negb (is_char b prev) && negb (is_char b (hd_error s'))
      then b :: b :: sub_lone_from b (Some c) s'
      else c :: sub_lone_from b (Some c) s'
  end.

Definition sub_lone (b : ascii) (s : str) : str := sub_lone_from b None s.

Definition lbrace : ascii := "{"%char.
Definition rbrace : ascii := "}"%char.

(** [escape] of [_get_var_healer]. *)
Definition escape (input_string : str) : str :=
  let result := sub_lone lbrace input_string in
  let result := sub_lone rbrace result in
  result.

(** The spec's description of [escape], as one pass: a brace is doubled when
    the character before it and the character after it both differ from it;
    everything else is copied. *)
Definition is_brace (c : ascii) : bool := Ascii.eqb c lbrace || Ascii.eqb c rbrace.

Fixpoint escape_spec_from (prev : option ascii) (s : str) : str :=
  match s with
  | [] => []
  | c :: s' =>
      if is_brace c && negb (is_char c prev) && negb (is_char c (hd_error s'))
      then c :: c :: escape_spec_from (Some c) s'
      else c :: escape_spec_from (Some c) s'
  end.

Definition escape_spec (s : str) : str := escape_spec_from None s.

(** No brace [b] of [s] stands alone, [prev] being the character before [s]. *)
Fixpoint lone_free (b : ascii) (prev : option ascii) (s : str) : bool :=
  match s with
  | [] => true
  | c :: s' =>
      (negb (Ascii.eqb c b) || is_char b prev || is_char b (hd_error s'))
      && lone_free b (Some c) s'
  end.

(** ** [pattern.sub(repl, s)] for a pattern that matches no empty string

    [match_at s] is the length of the match that starts at the head of [s],
    if the pattern matches there.  [re.sub] walks the subject from the left,
    takes the match at the first position that has one, resumes right after
    it, and copies the characters in between.  [skip] counts the characters
    of the current match that are still to be passed over. *)

Inductive piece : Type :=
| Copied (c : ascii)
| Matched (m : str).

Section ReSub.
Variable match_at : str -> option nat.

Fixpoint re_pieces_from (skip : nat) (s : str) : list piece :=
  match s with
  | [] => []
  | c :: s' =>
      match skip with
      | S k => re_pieces_from k s'
      | O =>
          match match_at s with
          | Some (S k) => Matched (firstn (S k) s) :: re_pieces_from k s'
          | _ => Copied c :: re_pieces_from 0 s'
          end
      end
  end.

Definition re_pieces (s : str) : list piece := re_pieces_from 0 s.

(** The replacement callable may raise; the leftmost failure wins. *)
Fixpoint subst_pieces (repl : str -> result str) (ps : list piece) : result str :=
  match ps with
  | [] => Ok []
  | Copied c :: ps' => rest <- subst_pieces repl ps' ;; Ok (c :: rest)
  | Matched m :: ps' =>
      r <- repl m ;; rest <- subst_pieces repl ps' ;; Ok (r ++ rest)
  end.

Definition re_sub (repl : str -> result str) (s : str) : result str :=
  subst_pieces repl (re_pieces s).

(** [pattern.findall(s)] for a pattern with one group, [group] cutting the
    group out of the matched text. *)
Definition re_findall (group : str -> str) (s : str) : list str :=
  flat_map (fun p => match p with Matched m => [group m] | Copied _ => [] end)
           (re_pieces s).
End ReSub.

(** ["|".join(map(re.escape, alts))]: the first alternative, in order, that
    is a prefix of the subject. *)
Definition alt_match (alts : list str) (s : str) : option nat :=
  match find (fun a => prefixb a s) alts with
  | Some a => Some (List.length a)
  | None => None
  end.

Fixpoint strip_prefix (p s : str) : option str :=
  match p, s with
  | [], _ => Some s
  | _ :: _, [] => None
  | a :: p', b :: s' => if Ascii.eqb a b then strip_prefix p' s' else None
  end.

Fixpoint index_char (c : ascii) (s : str) : option nat :=
  match s with
  | [] => None
  | d :: s' => if Ascii.eqb d c then Some 0 else option_map S (index_char c s')
  end.

Definition open_tag : str := lit "<TO_OPTIMIZE".
Definition close_tag : str := lit "</TO_OPTIMIZE>".

(** [r"<TO_OPTIMIZE.*?>|</TO_OPTIMIZE>"] with [re.DOTALL]: the lazy [.*?]
    stops at the first [>] after the tag name, whatever lies in between. *)
Definition to_optimize_match (s : str) : option nat :=
  let opening :=
    match strip_prefix open_tag s with
    | Some rest =>
        option_map (fun n => List.length open_tag + n + 1) (index_char ">"%char rest)
    | None => None
    end in
  match opening with
  | Some n => Some n
  | None => if prefixb close_tag s then Some (List.length close_tag) else None
  end.

Definition newline : ascii := "010"%char.

(** The tail [.*?\}] of [r"\{(.+?)\}"] once the first character of the group
    is taken: the number of characters before the first closing brace, none
    of them a newline. *)
Fixpoint lazy_until_rbrace (s : str) : option nat :=
  match s with
  | [] => None
  | c :: s' =>
      if Ascii.eqb c rbrace then Some 0
      else if Ascii.eqb c newline then None
      else option_map S (lazy_until_rbrace s')
  end.

(** [r"\{(.+?)\}"] at the head of the subject. *)
Definition var_match (s : str) : option nat :=
  match s with
  | c0 :: c1 :: s' =>
      if Ascii.eqb c0 lbrace && negb (Ascii.eqb c1 newline)
      then option_map (fun n => n + 3) (lazy_until_rbrace s')
      else None
  | _ => None
  end.

(** [uuid.UUID.hex]: ['%032x' % self.int]. *)
Definition hex_digit (d : N) : ascii :=
  nth (N.to_nat d) (lit "0123456789abcdef") "0"%char.

Fixpoint hex_digits (n : nat) (x : N) : str :=
  match n with
  | O => []
  | S k => hex_digits k (N.div x 16) ++ [hex_digit (N.modulo x 16)]
  end.

Definition uuid_hex (u : N) : str := hex_digits 32 u.

Definition is_hex (c : ascii) : bool := mem_char c (lit "0123456789abcdef").

(** ** The variable healer *)

Module Healer.

(** [f"{{{v}}}"]. *)
Definition placeholder (v : str) : str := lbrace :: v ++ [rbrace].

(** The [vars] argument: a set, given by its iteration order, or a template
    string that is scanned for placeholders. *)
Inductive vars_arg : Type :=
| VarSet (elems : list str)
| VarTemplate (template : str).

(** [set(re.findall(r"\{(.+?)\}", vars, re.MULTILINE))].  The iteration order
    of the set is not fixed by Python; the order of [nodup] is taken. *)
Definition template_vars (template : str) : list str :=
  nodup (list_eq_dec ascii_dec)
        (re_findall var_match (fun m => removelast (tl m)) template).

Section Pipeline.
(** [uuid4 k] is the integer of the UUID that the k-th call of
    [uuid.uuid4()] returns. *)
Variable uuid4 : nat -> N.
Variable vars : list str.
Variable all_required : bool.

Definition tokens : list str :=
  map (fun k => uuid_hex (uuid4 k)) (seq 0 (List.length vars)).

Definition var_to_uuid : dict str str :=
  dict_of str_eqb (combine (map placeholder vars) tokens).

Definition uuid_to_var : dict str str :=
  dict_of str_eqb (map (fun kv => (snd kv, fst kv)) var_to_uuid).

Definition mask_pattern : str -> option nat := alt_match (dict_keys var_to_uuid).
Definition unmask_pattern : str -> option nat := alt_match (dict_values var_to_uuid).
Definition strip_to_optimize_pattern : str -> option nat := to_optimize_match.

(** [d[m.group(0)]] *)
Definition subscript (d : dict str str) (k : str) : result str :=
  match dict_get str_eqb k d with
  | Some v => Ok v
  | None => Raise (KeyError k)
  end.

Definition missing_vars (input_string : str) : list str :=
  filter (fun var => negb (str_in (placeholder var) input_string)) vars.

Definition assert_all_required (input_string : str) : result str :=
  if negb all_required then Ok input_string
  else
    let missing := missing_vars input_string in
    match missing with
    | _ :: _ =>
        Raise (ValueError (lit "Missing required variable: " ++ join (lit ", ") missing))
    | [] => Ok input_string
    end.

Definition mask (input_string : str) : result str :=
  re_sub mask_pattern (subscript var_to_uuid) input_string.

Definition unmask (input_string : str) : result str :=
  re_sub unmask_pattern (subscript uuid_to_var) input_string.

Definition strip_to_optimize (input_string : str) : result str :=
  re_sub strip_to_optimize_pattern (fun _ => Ok []) input_string.

Definition pipe (input_string : str) : result str :=
  checked <- assert_all_required input_string ;;
  masked <- mask checked ;;
  stripped <- strip_to_optimize (escape masked) ;;
  unmask stripped.

Definition healer : str -> result str :=
  match vars with
  | [] => fun input_string => Ok (escape input_string)
  | _ :: _ => pipe
  end.
End Pipeline.

Definition _get_var_healer (uuid4 : nat -> N) (vars : vars_arg) (all_required : bool)
  : str -> result str :=
  let vars :=
    match vars with
    | VarTemplate template => template_vars template
    | VarSet elems => elems
    end in
  healer uuid4 vars all_required.

End Healer.

(** ** Python values that the untyped entry points can receive *)

(** A chat message; its classes and their rendering belong to
    [langchain_core]. *)
Record message : Type := Message { msg_type : str; msg_content : str }.

#[local] Set Warnings "-register-all".
Inductive pyobj : Type :=
| PNone
| PStr (s : str)
| PMsg (m : message)
| PList (items : list pyobj)
| PTuple (items : list pyobj).

(** [bool(o)]. *)
Definition truthy (o : pyobj) : bool :=
  match o with
  | PNone => false
  | PStr s => negb (Nat.eqb (List.length s) 0)
  | PMsg _ => true
  | PList items | PTuple items => negb (Nat.eqb (List.length items) 0)
  end.

Definition enumerate {A : Type} (l : list A) : list (nat * A) :=
  combine (seq 0 (List.length l)) l.

(** ** Namespace templates *)

Module Namespace.

Fixpoint lstrip (chars s : str) : str :=
  match s with
  | [] => []
  | c :: s' => if mem_char c chars then lstrip chars s' else s
  end.

Definition rstrip (chars s : str) : str := rev (lstrip chars (rev s)).

(** [s.strip(chars)]. *)
Definition strip (chars s : str) : str := rstrip chars (lstrip chars s).

Definition _get_key (ns : pyobj) : option str :=
  match ns with
  | PStr s => if prefixb (lit "{") s then Some (strip (lit "{}") s) else None
  | _ => None
  end.

Record NamespaceTemplate : Type := {
  template : list pyobj;
  vars : dict nat str
}.

Definition init (template : list pyobj) : NamespaceTemplate :=
  {| template := template;
     vars := dict_of Nat.eqb
               (flat_map (fun '(ix, ns) =>
                            match _get_key ns with
                            | Some key => [(ix, key)]
                            | None => []
                            end)
                         (enumerate template)) |}.

(** A [RunnableConfig]: a mapping whose entry ["configurable"], when it is
    there, is a mapping from names to values; [other_keys] are the keys of
    its other entries. *)
Record RunnableConfig : Type := {
  configurable : option (dict str pyobj);
  other_keys : list str
}.

(** [bool(config)]: a mapping is true when it has an entry. *)
Definition config_truthy (config : RunnableConfig) : bool :=
  match configurable config, other_keys config with
  | None, [] => false
  | _, _ => true
  end.

Section Call.
(** [langgraph]'s [get_config()] returns the configuration of the running
    context and raises outside of one; [ambient] is that configuration. *)
Variable ambient : option RunnableConfig.

Definition get_config : result RunnableConfig :=
  match ambient with
  | Some config => Ok config
  | None => Raise (RuntimeError (lit "Called get_config outside of a runnable context"))
  end.

(** [configurable.get(name, default)]. *)
Definition get_default (d : dict str pyobj) (name : str) (default : pyobj) : pyobj :=
  match dict_get str_eqb name d with
  | Some v => v
  | None => default
  end.

(** [NamespaceTemplate.__call__]; [config] is [None] when the argument is
    omitted. *)
Definition call (self : NamespaceTemplate) (config : option RunnableConfig)
  : result (list pyobj) :=
  config <- match config with
            | Some c => if config_truthy c then Ok c else get_config
            | None => get_config
            end ;;
  match vars self with
  | _ :: _ =>
      let configurable :=
        match configurable config with
        | Some c => c
        | None => []
        end in
      Ok (map (fun '(ix, ns) =>
                 match dict_get Nat.eqb ix (vars self) with
                 | Some name => get_default configurable name ns
                 | None => ns
                 end)
              (enumerate (template self)))
  | [] => Ok (template self)
  end.
End Call.

End Namespace.

(** ** Session formatting *)

Module Sessions.

Section FormatSessions.
(** [uuid4 k] is the integer of the k-th UUID drawn by the call. *)
Variable uuid4 : nat -> N.
(** [langchain_core]: merging runs of messages, rendering one message, and
    what iterating over a message object yields. *)
Variable merge_message_runs : pyobj -> result (list message).
Variable pretty_repr : message -> str.
Variable iter_message : message -> list pyobj.
(** [format(o)] of an object that is not a [str]. *)
Variable format_other : pyobj -> str.

Definition get_conversation (messages : pyobj) : result str :=
  merged <- merge_message_runs messages ;;
  Ok (join [newline; newline] (map pretty_repr merged)).

Definition is_list (o : pyobj) : bool :=
  match o with PList _ => true | _ => false end.

(** [isinstance(sessions[0], list)] on a sequence that is not empty. *)
Definition first_is_list (items : list pyobj) : bool :=
  match items with
  | first :: _ => is_list first
  | [] => false
  end.

(** Lines 56 to 61: getting the argument into a list of
    [(session, feedback)] pairs. *)
Definition normalize (sessions : pyobj) : pyobj :=
  match sessions with
  | PStr _ => PList [PTuple [sessions; PStr []]]
  | PList items =>
      if first_is_list items
      then PList (map (fun session => PTuple [session; PStr []]) items)
      else sessions
  | PTuple items =>
      if first_is_list items then PList [sessions] else sessions
  | _ => sessions
  end.

(** [iter(o)]. *)
Definition py_iter (o : pyobj) : result (list pyobj) :=
  match o with
  | PList items | PTuple items => Ok items
  | PStr s => Ok (map (fun c => PStr [c]) s)
  | PMsg m => Ok (iter_message m)
  | PNone => Raise (TypeError (lit "cannot unpack non-iterable NoneType object"))
  end.

(** The target [(session, feedback)] of the loop. *)
Definition unpack2 (o : pyobj) : result (pyobj * pyobj) :=
  items <- py_iter o ;;
  match items with
  | [session; feedback] => Ok (session, feedback)
  | [] => Raise (ValueError (lit "not enough values to unpack (expected 2, got 0)"))
  | [_] => Raise (ValueError (lit "not enough values to unpack (expected 2, got 1)"))
  | _ => Raise (ValueError (lit "too many values to unpack (expected 2)"))
  end.

Definition format_value (o : pyobj) : str :=
  match o with
  | PStr s => s
  | _ => format_other o
  end.

Definition session_block (id_ conversation feedback : str) : str :=
  lit "<session_" ++ id_ ++ lit ">" ++ [newline] ++ conversation ++ feedback
    ++ [newline] ++ lit "</session_" ++ id_ ++ lit ">".

Definition feedback_block (id_ feedback : str) : str :=
  [newline; newline] ++ lit "Feedback for session " ++ id_ ++ lit ":" ++ [newline]
    ++ lit "<FEEDBACK>" ++ [newline] ++ feedback ++ [newline] ++ lit "</FEEDBACK>".

(** The loop over [zip(ids_, sessions)], [k] being the index of the next
    identifier. *)
Fixpoint format_each (k : nat) (items : list pyobj) : result (list str) :=
  match items with
  | [] => Ok []
  | item :: rest =>
      let id_ := uuid_hex (uuid4 k) in
      pair <- unpack2 item ;;
      let '(session, feedback) := pair in
      let feedback :=
        if truthy feedback then feedback_block id_ (format_value feedback)
        else format_value feedback in
      conversation <- get_conversation session ;;
      acc <- format_each (S k) rest ;;
      Ok (session_block id_ conversation feedback :: acc)
  end.

Definition format_sessions (sessions : pyobj) : result str :=
  if negb (truthy sessions) then Ok []
  else
    let sessions := normalize sessions in
    items <- py_iter sessions ;;
    acc <- format_each 0 items ;;
    Ok (join [newline; newline] acc).
End FormatSessions.

End Sessions.

(** ** Auxiliary definitions for the statements *)

Definition piece_text (p : piece) : str :=
  match p with
  | Copied c => [c]
  | Matched m => m
  end.

(** The characters that the scan for the [TO_OPTIMIZE] tags copies. *)
Definition copied_text (ps : list piece) : str :=
  flat_map (fun p => match p with Copied c => [c] | Matched _ => [] end) ps.

Definition strip_text (s : str) : str := copied_text (re_pieces to_optimize_match s).

(** Three UUIDs of version 4, for the examples. *)
Definition uuid4_sample (k : nat) : N :=
  nth k [0x3f2b8c1d9e4a4f6b8a7d1c2e3f405162%N;
         0x0b6f1e2d3c4b4a59b8c7d6e5f4a3b2c1%N;
         0x9d8c7b6a5f4e4d3c9b2a190817263544%N]
      0x3f2b8c1d9e4a4f6b8a7d1c2e3f405162%N.

(** [d[k]] where the key is known to be there. *)
Definition lookup (d : dict str str) (k : str) : str :=
  match dict_get str_eqb k d with
  | Some v => v
  | None => []
  end.

(** The text that [mask] makes of the scanned pieces: a matched placeholder
    gives its token, a copied character itself. *)
Definition masked_text (d : dict str str) (ps : list piece) : str :=
  flat_map (fun p => match p with Copied c => [c] | Matched m => lookup d m end) ps.

(** No token starts at a copied character of the masked text. *)
Fixpoint copied_clean (d : dict str str) (ps : list piece) : bool :=
  match ps with
  | [] => true
  | Copied c :: ps' =>
      negb (existsb (fun t => prefixb t (c :: masked_text d ps')) (dict_values d))
      && copied_clean d ps'
  | Matched _ :: ps' => copied_clean d ps'
  end.

Definition swap (kv : str * str) : str * str := (snd kv, fst kv).

(** A UUID of version 4 whose hexadecimal form repeats with period three. *)
Definition uuid4_periodic (k : nat) : N := 0x4a04a04a04a04a04a04a04a04a04a04a%N.

(** The spec's "matches exactly the pattern [{identifier}]": an opening
    brace, an identifier, a closing brace. *)
Definition in_range (lo hi : N) (c : ascii) : bool :=
  N.leb lo (N_of_ascii c) && N.leb (N_of_ascii c) hi.

Definition is_ident_start (c : ascii) : bool :=
  in_range 65 90 c || in_range 97 122 c || Ascii.eqb c "_"%char.

Definition is_ident_char (c : ascii) : bool :=
  is_ident_start c || in_range 48 57 c.

Definition is_identifier (s : str) : bool :=
  match s with
  | c :: r => is_ident_start c && forallb is_ident_char r
  | [] => false
  end.

Definition exact_placeholder (s : str) : bool :=
  match s with
  | c :: r =>
      Ascii.eqb c lbrace &&
      match rev r with
      | e :: m => Ascii.eqb e rbrace && is_identifier (rev m)
      | [] => false
      end
  | [] => false
  end.

(** The configurations of the examples: an empty mapping, and one that
    gives [x]. *)
Definition empty_config : Namespace.RunnableConfig :=
  {| Namespace.configurable := None; Namespace.other_keys := [] |}.

Definition config_x : Namespace.RunnableConfig :=
  {| Namespace.configurable := Some [(lit "x", PStr (lit "X"))];
     Namespace.other_keys := [] |}.

Definition template_axby : list pyobj :=
  [PStr (lit "a"); PStr (lit "{x}"); PStr (lit "b"); PStr (lit "{y}")].

(** The items of the comprehension of [__init__] for segments numbered from
    [start]. *)
Definition key_items (start : nat) (segments : list pyobj) : list (nat * str) :=
  flat_map (fun '(ix, ns) =>
              match Namespace._get_key ns with
              | Some key => [(ix, key)]
              | None => []
              end)
           (combine (seq start (List.length segments)) segments).

(** Iterating over a message of [langchain_core] yields one pair per field
    of the model; the six fields of its base class are listed. *)
Definition message_fields (m : message) : list pyobj :=
  [PTuple [PStr (lit "content"); PStr (msg_content m)];
   PTuple [PStr (lit "additional_kwargs"); PNone];
   PTuple [PStr (lit "response_metadata"); PNone];
   PTuple [PStr (lit "type"); PStr (msg_type m)];
   PTuple [PStr (lit "name"); PNone];
   PTuple [PStr (lit "id"); PNone]].

(** A renderer of conversations for the examples: messages are taken as
    they come. *)
Definition merge_sample (o : pyobj) : result (list message) :=
  match o with
  | PList items =>
      Ok (flat_map (fun i => match i with PMsg m => [m] | _ => [] end) items)
  | _ => Raise (TypeError (lit "not a sequence of messages"))
  end.

Definition pretty_sample (m : message) : str := msg_type m ++ lit ": " ++ msg_content m.

Definition format_other_sample (o : pyobj) : str := lit "None".

Definition hello : message := Message (lit "human") (lit "hello").

(** ** Characters of names and of plain text *)

Definition no_brace (s : str) : bool := forallb (fun c => negb (is_brace c)) s.

Definition plain_char (c : ascii) : bool := negb (is_brace c) && negb (Ascii.eqb c "<"%char).

Definition plain (s : str) : bool := forallb plain_char s.

(** The character before the rest of the subject once [t] is read. *)
Definition prev_after (prev : option ascii) (t : str) : option ascii :=
  fold_left (fun _ c => Some c) t prev.

(** ** Text around placeholders

    [segs] and [last] write a string as [t1 {v1} t2 {v2} ... tn {vn} last]:
    stretches of text, each followed by the placeholder of a variable, and
    the text after the last placeholder. *)

Fixpoint keys_text (segs : list (str * str)) (last : str) : str :=
  match segs with
  | [] => last
  | (t, v) :: segs' => t ++ Healer.placeholder v ++ keys_text segs' last
  end.

(** The same string with, for every written placeholder, the token that
    [d] has for it. *)
Fixpoint tokens_text (d : dict str str) (segs : list (str * str)) (last : str) : str :=
  match segs with
  | [] => last
  | (t, v) :: segs' => t ++ lookup d (Healer.placeholder v) ++ tokens_text d segs' last
  end.

(** Its pieces: the characters of the text, and the written placeholders. *)
Fixpoint seg_pieces (segs : list (str * str)) (last : str) : list piece :=
  match segs with
  | [] => map Copied last
  | (t, v) :: segs' => map Copied t ++ Matched (Healer.placeholder v) :: seg_pieces segs' last
  end.

(** [f] on every stretch of text before a placeholder. *)
Definition map_texts (f : str -> str) (segs : list (str * str)) : list (str * str) :=
  map (fun tv => (f (fst tv), snd tv)) segs.

(** No placeholder of a variable of [vars] occurs in [t ++ rest] starting
    at a character of [t]. *)
Fixpoint none_within (vars : list str) (t rest : str) : bool :=
  match t with
  | [] => true
  | c :: t' =>
      negb (existsb (fun w => prefixb (Healer.placeholder w) (c :: t' ++ rest)) vars)
      && none_within vars t' rest
  end.

(** The written placeholders are the occurrences of the placeholders of
    [vars] in [keys_text segs last], all of them: every written variable is
    in [vars]; where [{v}] is written no other variable of [vars] has its
    placeholder; and no placeholder of [vars] starts in a stretch of text
    or inside a written placeholder.  So no two occurrences overlap. *)
Fixpoint marked_only (vars : list str) (segs : list (str * str)) (last : str) : bool :=
  match segs with
  | [] => none_within vars last []
  | (t, v) :: segs' =>
      let rest := keys_text segs' last in
      none_within vars t (Healer.placeholder v ++ rest)
      && existsb (str_eqb v) vars
      && forallb (fun w => implb (prefixb (Healer.placeholder w) (Healer.placeholder v ++ rest))
                                 (str_eqb w v)) vars
      && none_within vars (tl (Healer.placeholder v)) rest
      && marked_only vars segs' last
  end.

(** What the pipe makes of a stretch of text: [escape], then the removal of
    the [TO_OPTIMIZE] tags. *)
Definition heal_text (t : str) : str := strip_text (escape t).

(** Every opening tag [<TO_OPTIMIZE] that begins in [u] has its [>] in
    [u]. *)
Fixpoint tags_closed (u : str) : bool :=
  match u with
  | [] => true
  | c :: u' =>
      (if prefixb open_tag (c :: u')
       then mem_char ">"%char (skipn (List.length open_tag) (c :: u'))
       else true)
      && tags_closed u'
  end.

(** No opening tag that begins in the text before a placeholder ends after
    it: the tag has its [>] in that text, or no [>] follows at all (the tag
    pattern then does not match and the text stays). *)
Fixpoint tags_spare (d : dict str str) (segs : list (str * str)) (last : str) : bool :=
  match segs with
  | [] => true
  | (t, v) :: segs' =>
      (tags_closed (escape t)
       || negb (mem_char ">"%char (tokens_text d (map_texts escape segs') (escape last))))
      && tags_spare d segs' last
  end.

(** ** The schema of the optimizer's output *)

Module PromptSchema.

(** What the validator can raise: its own [assert], or an exception of the
    pipeline. *)
Inductive failure : Type :=
| AssertionError
| Raised (e : exn).

(** The raw data that reaches the validator: a mapping from field names to
    values, a value being a string or [None]. *)
Inductive validated : Type :=
| Validated (data : dict str (option str))
| Failed (f : failure).

Section Schema.
(** [uuid4 k] is the integer of the k-th UUID drawn while the schema is
    built. *)
Variable uuid4 : nat -> N.
Variable original_prompt : str.

Definition required_variables : list str := Healer.template_vars original_prompt.

Definition variables_str : str :=
  join (lit ", ") (map Healer.placeholder required_variables).

Definition prompt_description : str :=
  match required_variables with
  | _ :: _ =>
      lit " The prompt section being optimized contains the following f-string variables to be templated in: "
        ++ variables_str ++ lit "."
        ++ lit " You must retain all of these variables in your improved prompt. No other input variables are allowed."
  | [] =>
      lit " The prompt section being optimized contains no input f-string variables."
        ++ lit " Any brackets {{ foo }} you emit will be escaped and not used."
  end.

Definition pipeline : str -> result str :=
  Healer._get_var_healer uuid4 (Healer.VarSet required_variables) true.

(** [pipeline(value)] for a value of the raw data.  On [None] the first
    operation on the input raises [TypeError]: with required variables the
    membership test [... not in input_string], without them [re.sub] in
    [escape]. *)
Definition pipeline_value (value : option str) : result str :=
  match value with
  | Some improved_prompt => pipeline improved_prompt
  | None =>
      Raise (TypeError
               match required_variables with
               | _ :: _ => lit "argument of type 'NoneType' is not iterable"
               | [] => lit "expected string or bytes-like object, got 'NoneType'"
               end)
  end.

(** [validate_input_variables], on raw data whose values are strings or
    [None]. *)
Definition validate_input_variables (data : dict str (option str)) : validated :=
  match dict_get str_eqb (lit "improved_prompt") data with
  | None => Failed AssertionError
  | Some value =>
      match pipeline_value value with
      | Ok healed => Validated (dict_set str_eqb (lit "improved_prompt") (Some healed) data)
      | Raise e => Failed (Raised e)
      end
  end.
End Schema.

End PromptSchema.

(** The blocks that [format_sessions] is expected to give for conversations
    and feedbacks in order, the identifiers being drawn from [k] on. *)
Fixpoint expected_blocks (uuid4 : nat -> N) (k : nat) (entries : list (str * str))
  : list str :=
  match entries with
  | [] => []
  | (conversation, feedback) :: rest =>
      let id_ := uuid_hex (uuid4 k) in
      Sessions.session_block id_ conversation
        match feedback with
        | [] => []
        | _ :: _ => Sessions.feedback_block id_ feedback
        end
      :: expected_blocks uuid4 (S k) rest
  end.

(** A configuration that has entries but no ["configurable"]. *)
Definition config_tags_only : Namespace.RunnableConfig :=
  {| Namespace.configurable := None; Namespace.other_keys := [lit "tags"] |}.

(** * Properties *)

(** ** Characters and strings *)

Lemma ascii_eqb_refl (c : ascii) : Ascii.eqb c c = true.
Proof. apply Ascii.eqb_refl. Qed.

Lemma str_eqb_eq (a b : str) : str_eqb a b = true <-> a = b.
Proof.
  unfold str_eqb. destruct (list_eq_dec ascii_dec a b); split; congruence.
Qed.

Lemma str_eqb_refl (a : str) : str_eqb a a = true.
Proof. now apply str_eqb_eq. Qed.


Lemma prefixb_app (p s : str) : prefixb p (p ++ s) = true.
Proof. induction p as [|a p IH]; simpl; [reflexivity|]. now rewrite ascii_eqb_refl. Qed.

Lemma prefixb_spec (p s : str) : prefixb p s = true <-> exists r, s = p ++ r.
Proof.
  revert s. induction p as [|a p IH]; intros s; simpl.
  - split; [intros _; now exists s|reflexivity].
  - destruct s as [|b s].
    + split; [discriminate|intros [r Hr]; discriminate].
    + rewrite andb_true_iff, Ascii.eqb_eq, IH. split.
      * intros [-> [r ->]]. now exists r.
      * intros [r Hr]. injection Hr as -> ->. split; [reflexivity|now exists r].
Qed.

(** ** [escape] *)

Lemma sub_lone_from_hd (b : ascii) (prev : option ascii) (s : str) :
  hd_error (sub_lone_from b prev s) = hd_error s.
Proof.
  destruct s as [|c s]; simpl; [reflexivity|].
  destruct (Ascii.eqb c b) eqn:E; simpl; [|reflexivity].
  apply Ascii.eqb_eq in E. subst c.
  now destruct (negb (is_char b prev) && negb (is_char b (hd_error s))).
Qed.

Section Escape.
Variable b : ascii.

Lemma sub_lone_from_fixed (prev : option ascii) (s : str) :
  lone_free b prev s = true -> sub_lone_from b prev s = s.
Proof.
  revert prev. induction s as [|c s IH]; intros prev H; simpl in *; [reflexivity|].
  apply andb_true_iff in H. destruct H as [H1 H2].
  rewrite (IH _ H2).
  destruct (Ascii.eqb c b); simpl in *; [|reflexivity].
  destruct (is_char b prev); simpl in *; [reflexivity|].
  now rewrite H1.
Qed.

Lemma sub_lone_from_lone_free (prev : option ascii) (s : str) :
  lone_free b prev (sub_lone_from b prev s) = true.
Proof.
  revert prev. induction s as [|c s IH]; intros prev; simpl; [reflexivity|].
  destruct (Ascii.eqb c b) eqn:E; simpl.
  - apply Ascii.eqb_eq in E. subst c.
    destruct (is_char b prev) eqn:Ep; simpl.
    + rewrite ascii_eqb_refl, Ep. simpl. apply IH.
    + destruct (is_char b (hd_error s)) eqn:En; simpl.
      * rewrite ascii_eqb_refl, Ep, sub_lone_from_hd, En. simpl. apply IH.
      * rewrite !ascii_eqb_refl, ?orb_true_r. simpl. apply IH.
  - rewrite E. simpl. apply IH.
Qed.

(** The substitution for another character keeps [b] from standing
    alone. *)
Lemma sub_lone_from_keeps (b' : ascii) (prev : option ascii) (s : str) :
  b' <> b ->
  lone_free b prev s = true -> lone_free b prev (sub_lone_from b' prev s) = true.
Proof.
  intros Hne. revert prev.
  induction s as [|c s IH]; intros prev H; simpl in *; [reflexivity|].
  apply andb_true_iff in H. destruct H as [H1 H2].
  destruct (Ascii.eqb c b' && negb (is_char b' prev) && negb (is_char b' (hd_error s))) eqn:E.
  - apply andb_true_iff in E. destruct E as [E _].
    apply andb_true_iff in E. destruct E as [E _].
    apply Ascii.eqb_eq in E. subst c.
    assert (Hb : Ascii.eqb b' b = false) by now apply Ascii.eqb_neq.
    simpl. rewrite Hb. simpl. now apply IH.
  - simpl. rewrite sub_lone_from_hd, H1. simpl. now apply IH.
Qed.
End Escape.

Lemma lbrace_neq_rbrace : lbrace <> rbrace.
Proof. discriminate. Qed.

Lemma escape_lone_free (s : str) :
  lone_free lbrace None (escape s) = true /\ lone_free rbrace None (escape s) = true.
Proof.
  unfold escape, sub_lone. split.
  - apply sub_lone_from_keeps; [intros H; now apply lbrace_neq_rbrace|].
    apply sub_lone_from_lone_free.
  - apply sub_lone_from_lone_free.
Qed.

Lemma escape_is_escape_spec_from (prev : option ascii) (s : str) :
  sub_lone_from rbrace prev (sub_lone_from lbrace prev s) = escape_spec_from prev s.
Proof.
  revert prev. induction s as [|c s IH]; intros prev; simpl; [reflexivity|].
  unfold is_brace.
  destruct (Ascii.eqb c lbrace) eqn:El.
  - apply Ascii.eqb_eq in El. subst c. simpl.
    destruct (negb (is_char lbrace prev) && negb (is_char lbrace (hd_error s))); simpl;
      now rewrite IH.
  - simpl. rewrite sub_lone_from_hd.
    destruct (Ascii.eqb c rbrace) eqn:Er; simpl.
    + apply Ascii.eqb_eq in Er. subst c.
      destruct (negb (is_char rbrace prev) && negb (is_char rbrace (hd_error s)));
        now rewrite IH.
    + now rewrite IH.
Qed.

Lemma escape_spec_from_plain (prev : option ascii) (s : str) :
  forallb (fun c => negb (is_brace c)) s = true -> escape_spec_from prev s = s.
Proof.
  revert prev. induction s as [|c s IH]; intros prev H; simpl in *; [reflexivity|].
  apply andb_true_iff in H. destruct H as [H1 H2].
  apply negb_true_iff in H1. rewrite H1. simpl. now rewrite IH.
Qed.

Lemma escape_fixed (s : str) :
  lone_free lbrace None s = true -> lone_free rbrace None s = true -> escape s = s.
Proof.
  intros Hl Hr. unfold escape, sub_lone.
  rewrite (sub_lone_from_fixed _ _ _ Hl). now apply sub_lone_from_fixed.
Qed.

(** C5: [escape] doubles every brace whose two neighbours both differ from
    it and copies every other character, a brace with an equal neighbour
    included ([escape_spec] is that one pass); so a string in which no brace
    stands alone, and in particular a string without braces, comes back
    unchanged, and with an empty variable set ["a{b}c"] becomes
    ["a{{b}}c"]. *)
Theorem escape_doubles_lone_braces :
  (forall s, escape s = escape_spec s)
  /\ (forall s, lone_free lbrace None s = true -> lone_free rbrace None s = true ->
                escape s = s)
  /\ (forall s, forallb (fun c => negb (is_brace c)) s = true -> escape s = s)
  /\ (forall uuid4 all_required,
        Healer._get_var_healer uuid4 (Healer.VarSet []) all_required (lit "a{b}c")
        = Ok (lit "a{{b}}c")).
Proof.
  assert (Hspec : forall s, escape s = escape_spec s).
  { intros s. apply escape_is_escape_spec_from. }
  split; [|split; [|split]].
  - exact Hspec.
  - exact escape_fixed.
  - intros s H. rewrite Hspec. now apply escape_spec_from_plain.
  - reflexivity.
Qed.

Lemma escape_doubles_lone_braces_witness :
  escape (lit "{{x}} and y") = lit "{{x}} and y"
  /\ escape (lit "plain text") = lit "plain text".
Proof.
  split.
  - apply (proj1 (proj2 escape_doubles_lone_braces)); reflexivity.
  - apply (proj1 (proj2 (proj2 escape_doubles_lone_braces))); reflexivity.
Defined.

(** C10: [escape] is idempotent on every string, and a run of three opening
    braces is already left unchanged by one pass. *)
Theorem escape_idempotent :
  (forall s, escape (escape s) = escape s)
  /\ escape (lit "{{{") = lit "{{{".
Proof.
  split; [|reflexivity].
  intros s. destruct (escape_lone_free s) as [Hl Hr]. now apply escape_fixed.
Qed.

(** ** Dictionaries *)

Section DictFacts.
Variables K V : Type.
Variable eqb : K -> K -> bool.
Hypothesis eqb_eq : forall a b, eqb a b = true <-> a = b.

Lemma eqb_refl' (a : K) : eqb a a = true.
Proof. now apply eqb_eq. Qed.

Lemma dict_get_in_keys (k : K) (d : dict K V) :
  In k (dict_keys d) -> exists v, dict_get eqb k d = Some v.
Proof.
  induction d as [|[k' v'] d IH]; simpl; [tauto|].
  intros [->|H].
  - rewrite eqb_refl'. now exists v'.
  - destruct (eqb k k'); [now exists v'|now apply IH].
Qed.

Lemma dict_get_nodup (k : K) (v : V) (d : dict K V) :
  NoDup (dict_keys d) -> In (k, v) d -> dict_get eqb k d = Some v.
Proof.
  induction d as [|[k' v'] d IH]; simpl; [tauto|].
  intros Hnd [H|H].
  - injection H as -> ->. now rewrite eqb_refl'.
  - inversion Hnd as [|? ? Hnotin Hnd']; subst.
    destruct (eqb k k') eqn:E.
    + apply eqb_eq in E. subst k'. exfalso. apply Hnotin.
      unfold dict_keys. change k with (fst (k, v)). now apply in_map.
    + now apply IH.
Qed.

Lemma dict_get_some_in (k : K) (v : V) (d : dict K V) :
  dict_get eqb k d = Some v -> In (k, v) d.
Proof.
  induction d as [|[k' v'] d IH]; simpl; [discriminate|].
  destruct (eqb k k') eqn:E.
  - apply eqb_eq in E. subst k'. intros H. injection H as ->. now left.
  - intros H. right. now apply IH.
Qed.

Lemma dict_set_fresh (k : K) (v : V) (d : dict K V) :
  ~ In k (dict_keys d) -> dict_set eqb k v d = d ++ [(k, v)].
Proof.
  induction d as [|[k' v'] d IH]; simpl; [reflexivity|].
  intros H. destruct (eqb k k') eqn:E.
  - apply eqb_eq in E. subst k'. tauto.
  - rewrite IH; [reflexivity|tauto].
Qed.

Lemma dict_set_keys (k : K) (v : V) (d : dict K V) (k0 : K) :
  In k0 (dict_keys (dict_set eqb k v d)) <-> k0 = k \/ In k0 (dict_keys d).
Proof.
  induction d as [|[k' v'] d IH]; simpl; [intuition congruence|].
  destruct (eqb k k') eqn:E; simpl.
  - apply eqb_eq in E. subst k'. intuition congruence.
  - rewrite IH. intuition congruence.
Qed.

Lemma dict_of_from_keys (items : list (K * V)) (d : dict K V) (k0 : K) :
  In k0 (dict_keys (fold_left (fun d kv => dict_set eqb (fst kv) (snd kv) d) items d))
  <-> In k0 (dict_keys d) \/ In k0 (map fst items).
Proof.
  revert d. induction items as [|[k v] items IH]; intros d; simpl; [tauto|].
  rewrite IH, dict_set_keys. intuition congruence.
Qed.

Lemma dict_of_keys (items : list (K * V)) (k0 : K) :
  In k0 (dict_keys (dict_of eqb items)) <-> In k0 (map fst items).
Proof. unfold dict_of. rewrite dict_of_from_keys. simpl. tauto. Qed.

Lemma dict_of_from_nodup (items : list (K * V)) (d : dict K V) :
  NoDup (dict_keys d ++ map fst items) ->
  fold_left (fun d kv => dict_set eqb (fst kv) (snd kv) d) items d = d ++ items.
Proof.
  revert d. induction items as [|[k v] items IH]; intros d H; simpl.
  - now rewrite app_nil_r.
  - simpl in H. assert (Hk : ~ In k (dict_keys d)).
    { apply NoDup_remove_2 in H. intros Hin. apply H. apply in_or_app. now left. }
    rewrite dict_set_fresh by exact Hk. rewrite IH.
    + now rewrite <- app_assoc.
    + unfold dict_keys in *. rewrite map_app. simpl. now rewrite <- app_assoc.
Qed.

(** A comprehension over items with distinct keys is the list of items. *)
Lemma dict_of_nodup (items : list (K * V)) :
  NoDup (map fst items) -> dict_of eqb items = items.
Proof. intros H. unfold dict_of. now rewrite dict_of_from_nodup. Qed.
End DictFacts.

(** ** The scan of [re.sub] *)

Section ReSubFacts.
Variable match_at : str -> option nat.

Lemma re_pieces_from_skipn (k : nat) (s : str) :
  re_pieces_from match_at k s = re_pieces match_at (skipn k s).
Proof.
  revert k. induction s as [|c s IH]; intros [|k]; try reflexivity.
  simpl. apply IH.
Qed.

Lemma re_pieces_copy (c : ascii) (s : str) :
  match_at (c :: s) = None ->
  re_pieces match_at (c :: s) = Copied c :: re_pieces match_at s.
Proof. intros H. unfold re_pieces. simpl. now rewrite H. Qed.

Lemma re_pieces_match (m r : str) :
  m <> [] -> match_at (m ++ r) = Some (List.length m) ->
  re_pieces match_at (m ++ r) = Matched m :: re_pieces match_at r.
Proof.
  intros Hm H. destruct m as [|c m]; [congruence|].
  unfold re_pieces at 1. simpl in *. rewrite H.
  rewrite re_pieces_from_skipn, firstn_app, skipn_app, firstn_all, skipn_all.
  now rewrite Nat.sub_diag, app_nil_r.
Qed.


(** A replacement that is defined on every matched text never raises. *)
Lemma subst_pieces_ok (repl : str -> result str) (ps : list piece) :
  Forall (fun p => match p with
                   | Matched m => exists r, repl m = Ok r
                   | Copied _ => True
                   end) ps ->
  exists r, subst_pieces repl ps = Ok r.
Proof.
  induction 1 as [|[c|m] ps Hp _ IH]; simpl.
  - now exists [].
  - destruct IH as [r ->]. now exists (c :: r).
  - destruct Hp as [r0 ->]. destruct IH as [r ->]. now exists (r0 ++ r).
Qed.

(** Every matched text is what [match_at] measures at some suffix. *)
Lemma re_pieces_from_matched (P : str -> Prop) :
  (forall t n, match_at t = Some n -> P (firstn n t)) ->
  forall k s, Forall (fun p => match p with
                               | Matched m => P m
                               | Copied _ => True
                               end) (re_pieces_from match_at k s).
Proof.
  intros HP k s. revert k.
  induction s as [|c s IH]; intros k; simpl; [constructor|].
  destruct k as [|k]; [|apply IH].
  destruct (match_at (c :: s)) as [[|n]|] eqn:E.
  - constructor; [exact I|apply IH].
  - constructor; [|apply IH]. apply (HP _ _ E).
  - constructor; [exact I|apply IH].
Qed.

(** The pieces spell the subject when no match runs past its end. *)
Lemma re_pieces_from_text :
  (forall t n, match_at t = Some n -> n <= List.length t) ->
  forall k s, k <= List.length s ->
              flat_map piece_text (re_pieces_from match_at k s) = skipn k s.
Proof.
  intros Hlen k s. revert k.
  induction s as [|c s IH]; intros k Hk; simpl in *.
  - now destruct k.
  - destruct k as [|k]; [|apply IH; lia].
    destruct (match_at (c :: s)) as [[|n]|] eqn:E; simpl.
    + now rewrite (IH 0) by lia.
    + apply Hlen in E. simpl in E. rewrite IH by lia.
      now rewrite firstn_skipn.
    + now rewrite (IH 0) by lia.
Qed.
End ReSubFacts.

Lemma alt_match_spec (alts : list str) (t : str) (n : nat) :
  alt_match alts t = Some n ->
  In (firstn n t) alts /\ n = List.length (firstn n t) /\ prefixb (firstn n t) t = true.
Proof.
  unfold alt_match. destruct (find (fun a => prefixb a t) alts) as [a|] eqn:E; [|discriminate].
  intros H. injection H as <-. apply find_some in E. destruct E as [Hin Hp].
  apply prefixb_spec in Hp. destruct Hp as [r ->].
  rewrite firstn_app, firstn_all, Nat.sub_diag. simpl. rewrite app_nil_r.
  repeat split; [assumption|apply prefixb_app].
Qed.

(** ** The variable healer *)

Section HealerFacts.
Import Healer.
Variable uuid4 : nat -> N.
Variable vars : list str.

Lemma uuid_to_var_keys (t : str) :
  In t (dict_keys (uuid_to_var uuid4 vars)) <-> In t (dict_values (var_to_uuid uuid4 vars)).
Proof.
  unfold uuid_to_var. rewrite (@dict_of_keys _ _ _ str_eqb_eq).
  unfold dict_values. now rewrite map_map.
Qed.

Lemma mask_pieces_in_keys (k : nat) (s : str) :
  Forall (fun p => match p with
                   | Matched m => In m (dict_keys (var_to_uuid uuid4 vars))
                   | Copied _ => True
                   end)
         (re_pieces_from (mask_pattern uuid4 vars) k s).
Proof.
  apply re_pieces_from_matched. intros t n H.
  now apply alt_match_spec in H.
Qed.

Lemma mask_total (s : str) : exists r, mask uuid4 vars s = Ok r.
Proof.
  unfold mask, re_sub, re_pieces. apply subst_pieces_ok.
  eapply Forall_impl; [|apply mask_pieces_in_keys].
  intros [c|m]; [trivial|]. intros H.
  destruct (@dict_get_in_keys _ _ _ str_eqb_eq _ _ H) as [v Hv].
  exists v. unfold subscript. now rewrite Hv.
Qed.

Lemma unmask_total (s : str) : exists r, unmask uuid4 vars s = Ok r.
Proof.
  unfold unmask, re_sub, re_pieces. apply subst_pieces_ok.
  eapply Forall_impl;
    [|apply (re_pieces_from_matched (unmask_pattern uuid4 vars)
               (fun m => In m (dict_values (var_to_uuid uuid4 vars))))].
  - intros [c|m]; [trivial|]. intros H. apply uuid_to_var_keys in H.
    destruct (@dict_get_in_keys _ _ _ str_eqb_eq _ _ H) as [v Hv].
    exists v. unfold subscript. now rewrite Hv.
  - intros t n H. now apply alt_match_spec in H.
Qed.
End HealerFacts.

Lemma subst_pieces_erase (ps : list piece) :
  subst_pieces (fun _ => Ok []) ps = Ok (copied_text ps).
Proof.
  induction ps as [|[c|m] ps IH]; simpl; [reflexivity| |]; now rewrite IH.
Qed.

Lemma strip_to_optimize_text (s : str) : Healer.strip_to_optimize s = Ok (strip_text s).
Proof. apply subst_pieces_erase. Qed.

Lemma strip_prefix_app (p s : str) : strip_prefix p (p ++ s) = Some s.
Proof. induction p as [|a p IH]; simpl; [reflexivity|]. now rewrite ascii_eqb_refl. Qed.

Lemma index_char_first (c : ascii) (a r : str) :
  mem_char c a = false -> index_char c (a ++ c :: r) = Some (List.length a).
Proof.
  induction a as [|d a IH]; simpl.
  - now rewrite ascii_eqb_refl.
  - intros H. apply orb_false_iff in H. destruct H as [H1 H2].
    rewrite Ascii.eqb_sym in H1. rewrite H1, IH by assumption. reflexivity.
Qed.

Lemma strip_text_close (r : str) : strip_text (close_tag ++ r) = strip_text r.
Proof.
  unfold strip_text. rewrite re_pieces_match; [reflexivity|discriminate|].
  reflexivity.
Qed.

Lemma strip_text_open (attrs r : str) :
  mem_char ">"%char attrs = false ->
  strip_text (open_tag ++ attrs ++ ">"%char :: r) = strip_text r.
Proof.
  intros H. unfold strip_text.
  replace (open_tag ++ attrs ++ ">"%char :: r)
    with ((open_tag ++ attrs ++ [">"%char]) ++ r)
    by now rewrite <- !app_assoc.
  rewrite re_pieces_match; [reflexivity|discriminate|].
  unfold to_optimize_match. rewrite <- !app_assoc, strip_prefix_app.
  simpl app at 2. rewrite index_char_first by assumption. simpl.
  rewrite !length_app. reflexivity.
Qed.

Lemma strip_text_copy (c : ascii) (r : str) :
  to_optimize_match (c :: r) = None -> strip_text (c :: r) = c :: strip_text r.
Proof. intros H. unfold strip_text. now rewrite re_pieces_copy. Qed.

(** C1: with a variable set that is not empty the healer is [pipe], which
    checks the required variables, masks, escapes, removes the
    [TO_OPTIMIZE] tags and unmasks, in this order; the removal drops every
    closing tag and every opening tag up to its first [>], and copies
    every character at which neither tag starts. *)
Theorem pipe_steps_in_order (uuid4 : nat -> N) (vars : list str) (all_required : bool) :
  vars <> [] ->
  (forall s,
     Healer._get_var_healer uuid4 (Healer.VarSet vars) all_required s =
     (checked <- Healer.assert_all_required vars all_required s ;;
      masked <- Healer.mask uuid4 vars checked ;;
      stripped <- Healer.strip_to_optimize (escape masked) ;;
      Healer.unmask uuid4 vars stripped))
  /\ (forall s, Healer.strip_to_optimize s = Ok (strip_text s))
  /\ (forall r, strip_text (close_tag ++ r) = strip_text r)
  /\ (forall attrs r, mem_char ">"%char attrs = false ->
                      strip_text (open_tag ++ attrs ++ ">"%char :: r) = strip_text r)
  /\ (forall c r, to_optimize_match (c :: r) = None ->
                  strip_text (c :: r) = c :: strip_text r).
Proof.
  intros Hvars. split; [|split; [|split; [|split]]].
  - intros s. unfold Healer._get_var_healer, Healer.healer.
    destruct vars; [congruence|reflexivity].
  - exact strip_to_optimize_text.
  - exact strip_text_close.
  - exact strip_text_open.
  - exact strip_text_copy.
Qed.

Lemma pipe_steps_in_order_witness :
  Healer._get_var_healer uuid4_sample (Healer.VarSet [lit "name"]) true
    (lit "<TO_OPTIMIZE>Hi {name}, {x}</TO_OPTIMIZE>")
  = Ok (lit "Hi {name}, {{x}}").
Proof.
  assert (H : [lit "name"] <> []) by discriminate.
  rewrite (proj1 (pipe_steps_in_order uuid4_sample true H)).
  vm_compute. reflexivity.
Defined.

Lemma pipe_required_run (uuid4 : nat -> N) (vars : list str) (s : str) :
  let missing := Healer.missing_vars vars s in
  (missing = [] /\ exists r, Healer.pipe uuid4 vars true s = Ok r)
  \/ (missing <> [] /\
      Healer.pipe uuid4 vars true s
      = Raise (ValueError (lit "Missing required variable: " ++ join (lit ", ") missing))).
Proof.
  intros missing. unfold Healer.pipe, Healer.assert_all_required. simpl negb.
  cbv iota. fold missing. destruct missing as [|m ms].
  - left. split; [reflexivity|]. simpl.
    destruct (mask_total uuid4 vars s) as [masked ->]. simpl.
    rewrite strip_to_optimize_text. simpl. apply unmask_total.
  - right. split; [discriminate|reflexivity].
Qed.

(** C4: with [all_required] the healer raises exactly when some required
    variable has no verbatim placeholder in the input; what it raises is the
    [ValueError] whose message lists all the missing names; and when none is
    missing the assertion step returns its input. *)
Theorem missing_variables_raise (uuid4 : nat -> N) (vars : list str) (s : str) :
  let h := Healer._get_var_healer uuid4 (Healer.VarSet vars) true in
  let missing := Healer.missing_vars vars s in
  (forall v, In v missing <-> In v vars /\ str_in (Healer.placeholder v) s = false)
  /\ ((exists e, h s = Raise e)
      <-> exists v, In v vars /\ str_in (Healer.placeholder v) s = false)
  /\ (forall e, h s = Raise e ->
                e = ValueError (lit "Missing required variable: " ++ join (lit ", ") missing))
  /\ ((forall v, In v vars -> str_in (Healer.placeholder v) s = true) ->
      Healer.assert_all_required vars true s = Ok s).
Proof.
  intros h missing.
  assert (Hmiss : forall v, In v missing
                            <-> In v vars /\ str_in (Healer.placeholder v) s = false).
  { intros v. unfold missing, Healer.missing_vars. rewrite filter_In.
    now rewrite negb_true_iff. }
  assert (Hrun : (missing = [] /\ exists r, h s = Ok r)
                 \/ (missing <> [] /\
                     h s = Raise (ValueError (lit "Missing required variable: "
                                                ++ join (lit ", ") missing)))).
  { unfold h, Healer._get_var_healer, Healer.healer, missing.
    destruct vars as [|v0 vs].
    - left. split; [reflexivity|now eexists].
    - apply pipe_required_run. }
  split; [exact Hmiss|split; [|split]].
  - split.
    + intros [e He]. destruct Hrun as [[_ [r Hr]]|[Hne _]]; [congruence|].
      destruct missing as [|m ms]; [congruence|].
      exists m. apply Hmiss. now left.
    + intros [v Hv]. apply Hmiss in Hv.
      destruct Hrun as [[Hnil _]|[_ Hr]]; [rewrite Hnil in Hv; contradiction|].
      eexists. exact Hr.
  - intros e He. destruct Hrun as [[_ [r Hr]]|[_ Hr]]; congruence.
  - intros Hall. unfold Healer.assert_all_required. simpl. fold missing.
    destruct missing as [|m ms]; [reflexivity|].
    assert (Hm : In m (m :: ms)) by now left.
    apply Hmiss in Hm. destruct Hm as [Hin Hf]. rewrite (Hall _ Hin) in Hf. discriminate.
Qed.

Lemma missing_variables_raise_witness :
  Healer.assert_all_required [lit "foo"; lit "bar"] true (lit "{bar} and {foo}")
  = Ok (lit "{bar} and {foo}").
Proof.
  apply (proj2 (proj2 (proj2
           (missing_variables_raise uuid4_sample [lit "foo"; lit "bar"]
              (lit "{bar} and {foo}"))))).
  intros v [<-|[<-|[]]]; reflexivity.
Defined.

(** C6: with an empty variable set, given as a set or as a template string
    without placeholders, the healer is [escape]: no step other than
    [escape] acts on the input and nothing is raised, whatever
    [all_required] is. *)
Theorem empty_vars_healer_is_escape (uuid4 : nat -> N) (all_required : bool) :
  (forall s, Healer._get_var_healer uuid4 (Healer.VarSet []) all_required s = Ok (escape s))
  /\ (forall template,
        Healer.template_vars template = [] ->
        forall s, Healer._get_var_healer uuid4 (Healer.VarTemplate template) all_required s
                  = Ok (escape s)).
Proof.
  split; [reflexivity|].
  intros template H s. unfold Healer._get_var_healer. now rewrite H.
Qed.

Lemma empty_vars_healer_is_escape_witness :
  Healer._get_var_healer uuid4_sample (Healer.VarTemplate (lit "no variables {here")) true
    (lit "a {b} c")
  = Ok (lit "a {{b}} c").
Proof.
  rewrite (proj2 (empty_vars_healer_is_escape uuid4_sample true)); reflexivity.
Defined.

(** ** Masking and unmasking *)

Lemma dict_get_in (k v : str) (d : dict str str) :
  dict_get str_eqb k d = Some v -> In (k, v) d.
Proof. apply (@dict_get_some_in _ _ _ str_eqb_eq). Qed.

Lemma prefixb_same_length (a t r : str) :
  prefixb a (t ++ r) = true -> List.length a = List.length t -> a = t.
Proof.
  revert t. induction a as [|x a IH]; intros [|y t]; simpl; try discriminate; try reflexivity.
  rewrite andb_true_iff, Ascii.eqb_eq. intros [-> H] Hl. f_equal. apply IH; [assumption|lia].
Qed.


Section Unmasking.
(** [d] is [var_to_uuid]; its tokens are distinct and of one length. *)
Variable d : dict str str.
Variable width : nat.
Hypothesis width_pos : 0 < width.
Hypothesis token_width : forall t, In t (dict_values d) -> List.length t = width.
Hypothesis tokens_distinct : NoDup (dict_values d).

Local Abbreviation inverse := (dict_of str_eqb (map (fun kv => (snd kv, fst kv)) d)).

Lemma inverse_get (m t : str) : In (m, t) d -> dict_get str_eqb t inverse = Some m.
Proof.
  intros H.
  assert (Hfst : map fst (map (fun kv : str * str => (snd kv, fst kv)) d) = dict_values d).
  { unfold dict_values. now rewrite map_map. }
  rewrite (@dict_of_nodup _ _ _ str_eqb_eq) by now rewrite Hfst.
  apply (@dict_get_nodup _ _ _ str_eqb_eq).
  - unfold dict_keys. now rewrite Hfst.
  - change (t, m) with ((fun kv : str * str => (snd kv, fst kv)) (m, t)). now apply in_map.
Qed.

Lemma lookup_in (m : str) : In m (dict_keys d) -> In (m, lookup d m) d.
Proof.
  intros H. destruct (@dict_get_in_keys _ _ _ str_eqb_eq _ _ H) as [v Hv].
  unfold lookup. rewrite Hv. now apply dict_get_in.
Qed.

Lemma alt_match_token (t rest : str) :
  In t (dict_values d) -> alt_match (dict_values d) (t ++ rest) = Some (List.length t).
Proof.
  intros Hin. unfold alt_match.
  destruct (find (fun a => prefixb a (t ++ rest)) (dict_values d)) as [a|] eqn:E.
  - apply find_some in E. destruct E as [Ha Hp].
    assert (a = t) as ->; [|reflexivity].
    apply (prefixb_same_length _ _ _ Hp).
    now rewrite (token_width _ Ha), (token_width _ Hin).
  - apply (find_none _ _ E) in Hin. now rewrite prefixb_app in Hin.
Qed.

Lemma alt_match_clean (s : str) :
  existsb (fun t => prefixb t s) (dict_values d) = false ->
  alt_match (dict_values d) s = None.
Proof.
  intros H. unfold alt_match.
  destruct (find (fun a => prefixb a s) (dict_values d)) as [a|] eqn:E; [|reflexivity].
  apply find_some in E. destruct E as [Ha Hp].
  assert (existsb (fun t => prefixb t s) (dict_values d) = true); [|congruence].
  apply existsb_exists. now exists a.
Qed.

Lemma unmask_masked_text (ps : list piece) :
  Forall (fun p => match p with
                   | Matched m => In m (dict_keys d)
                   | Copied _ => True
                   end) ps ->
  copied_clean d ps = true ->
  re_sub (alt_match (dict_values d)) (Healer.subscript inverse) (masked_text d ps)
  = Ok (flat_map piece_text ps).
Proof.
  unfold re_sub.
  induction 1 as [|[c|m] ps Hp _ IH]; simpl; intros Hc; [reflexivity| |].
  - apply andb_true_iff in Hc. destruct Hc as [Hc1 Hc2].
    apply negb_true_iff in Hc1.
    rewrite re_pieces_copy by now apply alt_match_clean.
    simpl. now rewrite (IH Hc2).
  - apply lookup_in in Hp.
    assert (Hv : In (lookup d m) (dict_values d)).
    { unfold dict_values. change (lookup d m) with (snd (m, lookup d m)). now apply in_map. }
    rewrite re_pieces_match.
    + simpl. unfold Healer.subscript at 1. rewrite (inverse_get _ _ Hp). simpl.
      now rewrite (IH Hc).
    + intros E. apply token_width in Hv. rewrite E in Hv. simpl in Hv. lia.
    + now apply alt_match_token.
Qed.

Lemma mask_masked_text (ps : list piece) :
  Forall (fun p => match p with
                   | Matched m => In m (dict_keys d)
                   | Copied _ => True
                   end) ps ->
  subst_pieces (Healer.subscript d) ps = Ok (masked_text d ps).
Proof.
  induction 1 as [|[c|m] ps Hp _ IH]; simpl; [reflexivity| |].
  - now rewrite IH.
  - destruct (@dict_get_in_keys _ _ _ str_eqb_eq _ _ Hp) as [v Hv].
    unfold Healer.subscript at 1, lookup. rewrite Hv. simpl. now rewrite IH.
Qed.
End Unmasking.

Lemma hex_digits_length (n : nat) (x : N) : List.length (hex_digits n x) = n.
Proof.
  revert x. induction n as [|n IH]; intros x; simpl; [reflexivity|].
  rewrite length_app, IH. simpl. lia.
Qed.

Lemma map_snd_combine (A B : Type) (l : list A) (l' : list B) :
  List.length l = List.length l' -> map snd (combine l l') = l'.
Proof.
  revert l'. induction l as [|a l IH]; intros [|b l']; simpl; try discriminate; [reflexivity|].
  intros H. f_equal. apply IH. lia.
Qed.

Lemma map_fst_combine (A B : Type) (l : list A) (l' : list B) :
  List.length l = List.length l' -> map fst (combine l l') = l.
Proof.
  revert l'. induction l as [|a l IH]; intros [|b l']; simpl; try discriminate; [reflexivity|].
  intros H. f_equal. apply IH. lia.
Qed.

Lemma placeholder_inj (v w : str) : Healer.placeholder v = Healer.placeholder w -> v = w.
Proof.
  unfold Healer.placeholder. intros H. injection H as H.
  now apply app_inj_tail in H.
Qed.

Lemma NoDup_map_inj (A B : Type) (f : A -> B) (l : list A) :
  (forall a b, f a = f b -> a = b) -> NoDup l -> NoDup (map f l).
Proof.
  intros Hf. induction 1 as [|a l Hnotin _ IH]; simpl; constructor; [|assumption].
  intros H. apply in_map_iff in H. destruct H as [b [Hb Hin]].
  apply Hf in Hb. now subst b.
Qed.

Section HealerDict.
Import Healer.
Variable uuid4 : nat -> N.
Variable vars : list str.
Hypothesis vars_set : NoDup vars.

Lemma tokens_length : List.length (tokens uuid4 vars) = List.length vars.
Proof. unfold tokens. now rewrite length_map, length_seq. Qed.

Lemma var_to_uuid_items :
  var_to_uuid uuid4 vars = combine (map placeholder vars) (tokens uuid4 vars).
Proof.
  unfold var_to_uuid. apply (@dict_of_nodup _ _ _ str_eqb_eq).
  rewrite map_fst_combine by now rewrite length_map, tokens_length.
  apply NoDup_map_inj; [exact placeholder_inj|exact vars_set].
Qed.

Lemma var_to_uuid_values : dict_values (var_to_uuid uuid4 vars) = tokens uuid4 vars.
Proof.
  rewrite var_to_uuid_items. apply map_snd_combine.
  now rewrite length_map, tokens_length.
Qed.

Lemma var_to_uuid_keys : dict_keys (var_to_uuid uuid4 vars) = map placeholder vars.
Proof.
  rewrite var_to_uuid_items. apply map_fst_combine.
  now rewrite length_map, tokens_length.
Qed.

Lemma token_length (t : str) : In t (tokens uuid4 vars) -> List.length t = 32.
Proof.
  unfold tokens. intros H. apply in_map_iff in H. destruct H as [k [<- _]].
  apply hex_digits_length.
Qed.
End HealerDict.

Ltac nodup_strs :=
  repeat (constructor; [simpl; intuition discriminate|]); constructor.

(** ** Namespace templates *)

Section NamespaceFacts.
Import Namespace.

Lemma key_items_spec (segments : list pyobj) :
  forall start,
    NoDup (map fst (key_items start segments))
    /\ forall ix name,
         In (ix, name) (key_items start segments)
         <-> start <= ix /\ exists ns, nth_error segments (ix - start) = Some ns
                                       /\ _get_key ns = Some name.
Proof.
  induction segments as [|seg segments IH]; intros start.
  - split; [constructor|]. intros ix name. split; [intros []|].
    intros [_ [ns [H _]]]. now destruct (ix - start).
  - destruct (IH (S start)) as [IHnd IHin].
    assert (Hcons : key_items start (seg :: segments)
                    = match _get_key seg with
                      | Some key => [(start, key)]
                      | None => []
                      end ++ key_items (S start) segments) by reflexivity.
    rewrite Hcons. split.
    + destruct (_get_key seg) as [key|]; simpl; [|exact IHnd].
      constructor; [|exact IHnd].
      intros H. apply in_map_iff in H. destruct H as [[i n] [Hi Hin]].
      simpl in Hi. subst i. apply IHin in Hin. lia.
    + intros ix name. rewrite in_app_iff, IHin. split.
      * intros [H|[Hle [ns [Hn Hk]]]].
        -- destruct (_get_key seg) as [key|] eqn:Ek; [|destruct H].
           destruct H as [H|[]]. injection H as <- <-.
           split; [lia|]. exists seg. now rewrite Nat.sub_diag.
        -- split; [lia|]. exists ns. split; [|exact Hk].
           replace (ix - start) with (S (ix - S start)) by lia. exact Hn.
      * intros [Hle [ns [Hn Hk]]].
        destruct (Nat.eq_dec ix start) as [->|Hne].
        -- left. rewrite Nat.sub_diag in Hn. simpl in Hn. injection Hn as ->.
           rewrite Hk. now left.
        -- right. split; [lia|]. exists ns. split; [|exact Hk].
           replace (ix - start) with (S (ix - S start)) in Hn by lia. exact Hn.
Qed.

Lemma init_vars_get (template : list pyobj) (ix : nat) (name : str) :
  dict_get Nat.eqb ix (vars (init template)) = Some name
  <-> exists ns, nth_error template ix = Some ns /\ _get_key ns = Some name.
Proof.
  destruct (key_items_spec template 0) as [Hnd Hin].
  assert (Hv : vars (init template) = key_items 0 template).
  { apply (@dict_of_nodup _ _ _ Nat.eqb_eq). exact Hnd. }
  rewrite Hv. split.
  - intros H. apply (@dict_get_some_in _ _ _ Nat.eqb_eq) in H.
    apply Hin in H. destruct H as [_ H]. now rewrite Nat.sub_0_r in H.
  - intros H. apply (@dict_get_nodup _ _ _ Nat.eqb_eq); [exact Hnd|].
    apply Hin. split; [lia|]. now rewrite Nat.sub_0_r.
Qed.

Lemma nth_error_enumerate_from (A : Type) (l : list A) :
  forall start ix,
    nth_error (combine (seq start (List.length l)) l) ix
    = option_map (fun x => (start + ix, x)) (nth_error l ix).
Proof.
  induction l as [|a l IH]; intros start [|ix]; simpl; try reflexivity.
  - now rewrite Nat.add_0_r.
  - rewrite IH. destruct (nth_error l ix); simpl; [|reflexivity].
    do 2 f_equal. lia.
Qed.
End NamespaceFacts.

Lemma ident_char_not_brace (c : ascii) :
  is_ident_char c = true -> mem_char c (lit "{}") = false.
Proof.
  destruct c as [[] [] [] [] [] [] [] []]; vm_compute; congruence.
Qed.

Lemma ident_start_is_char (c : ascii) : is_ident_start c = true -> is_ident_char c = true.
Proof. unfold is_ident_char. now intros ->. Qed.

Lemma identifier_chars (id : str) :
  is_identifier id = true -> id <> [] /\ forallb is_ident_char id = true.
Proof.
  destruct id as [|c r]; simpl; [discriminate|].
  rewrite andb_true_iff. intros [H1 H2]. split; [discriminate|].
  now rewrite (ident_start_is_char _ H1).
Qed.

Lemma lstrip_ident (id rest : str) :
  id <> [] -> forallb is_ident_char id = true ->
  Namespace.lstrip (lit "{}") (id ++ rest) = id ++ rest.
Proof.
  destruct id as [|c r]; [congruence|]. intros _ H.
  simpl in H. apply andb_true_iff in H. destruct H as [H _].
  apply ident_char_not_brace in H. simpl app. cbn [Namespace.lstrip]. now rewrite H.
Qed.

Lemma get_key_identifier (id : str) :
  is_identifier id = true ->
  Namespace._get_key (PStr (Healer.placeholder id)) = Some id.
Proof.
  intros H. apply identifier_chars in H. destruct H as [Hne Hall].
  unfold Namespace._get_key, Healer.placeholder. simpl prefixb. cbv iota.
  f_equal. unfold Namespace.strip, Namespace.rstrip.
  change (Namespace.lstrip (lit "{}") (lbrace :: id ++ [rbrace]))
    with (Namespace.lstrip (lit "{}") (id ++ [rbrace])).
  rewrite lstrip_ident by assumption.
  rewrite rev_app_distr.
  change (Namespace.lstrip (lit "{}") (rev [rbrace] ++ rev id))
    with (Namespace.lstrip (lit "{}") (rev id)).
  rewrite <- (app_nil_r (rev id)), lstrip_ident.
  - now rewrite app_nil_r, rev_involutive.
  - intros E. apply Hne. now rewrite <- (rev_involutive id), E.
  - apply forallb_forall. intros c Hc. apply in_rev in Hc.
    now apply (proj1 (forallb_forall _ _) Hall).
Qed.

(** C8, as amended: a segment is recorded as a positional variable exactly
    when it is a string that begins with an opening brace, closed or not,
    and its key is the segment with the braces at both ends stripped; so
    every segment of the form [{identifier}] is recorded under
    [identifier], and every string that does not begin with a brace, like
    every value that is not a string, is a literal. *)
Theorem vars_are_segments_starting_with_brace :
  (forall template ix name,
     dict_get Nat.eqb ix (Namespace.vars (Namespace.init template)) = Some name
     <-> exists s, nth_error template ix = Some (PStr s)
                   /\ prefixb (lit "{") s = true
                   /\ name = Namespace.strip (lit "{}") s)
  /\ (forall id, is_identifier id = true ->
                 Namespace._get_key (PStr (Healer.placeholder id)) = Some id).
Proof.
  split; [|exact get_key_identifier].
  intros template ix name. rewrite init_vars_get. split.
  - intros [ns [Hn Hk]]. destruct ns as [|s|m|l|l]; try discriminate.
    exists s. unfold Namespace._get_key in Hk.
    destruct (prefixb (lit "{") s); [|discriminate].
    injection Hk as <-. auto.
  - intros [s [Hn [Hp ->]]]. exists (PStr s). split; [exact Hn|].
    unfold Namespace._get_key. now rewrite Hp.
Qed.

Lemma vars_are_segments_starting_with_brace_witness :
  Namespace._get_key (PStr (lit "{user_id}")) = Some (lit "user_id").
Proof.
  apply (proj2 vars_are_segments_starting_with_brace (lit "user_id")). reflexivity.
Defined.

(** C8 as stated fails: the segment ["{x"] is not of the form
    [{identifier}], yet it is recorded as a positional variable, under the
    key ["x"]. *)
Lemma unclosed_brace_is_variable :
  exact_placeholder (lit "{x") = false
  /\ Namespace._get_key (PStr (lit "{x")) = Some (lit "x")
  /\ dict_get Nat.eqb 0 (Namespace.vars (Namespace.init [PStr (lit "{x")])) = Some (lit "x")
  /\ ~ (forall s, (exists name, Namespace._get_key (PStr s) = Some name)
                  <-> exact_placeholder s = true).
Proof.
  split; [reflexivity|]. split; [reflexivity|]. split; [reflexivity|].
  intros H. destruct (H (lit "{x")) as [H1 _].
  assert (E : exact_placeholder (lit "{x") = true) by (apply H1; now eexists).
  discriminate.
Qed.

(** C7, as amended: for every template and every supplied context that is
    not an empty mapping, resolution returns a sequence of the template's
    length in which every segment that is not a positional variable is
    unchanged and every positional variable is replaced by the value under
    its name in the context's [configurable] mapping (an empty mapping when
    absent) if the name is there, and is left as it stands otherwise; the
    template [(a, "{x}", b, "{y}")] with [{configurable: {x: "X"}}] resolves
    to [(a, "X", b, "{y}")]. *)
Theorem call_resolves_template
    (ambient : option Namespace.RunnableConfig) (template : list pyobj)
    (config : Namespace.RunnableConfig) :
  Namespace.config_truthy config = true ->
  let self := Namespace.init template in
  let configurable :=
    match Namespace.configurable config with
    | Some c => c
    | None => []
    end in
  (exists resolved,
     Namespace.call ambient self (Some config) = Ok resolved
     /\ List.length resolved = List.length template
     /\ forall ix ns,
          nth_error template ix = Some ns ->
          nth_error resolved ix
          = Some match dict_get Nat.eqb ix (Namespace.vars self) with
                 | Some name =>
                     match dict_get str_eqb name configurable with
                     | Some value => value
                     | None => ns
                     end
                 | None => ns
                 end)
  /\ Namespace.call ambient (Namespace.init template_axby) (Some config_x)
     = Ok [PStr (lit "a"); PStr (lit "X"); PStr (lit "b"); PStr (lit "{y}")].
Proof.
  intros Htrue self configurable. split; [|reflexivity].
  assert (Hself : Namespace.template self = template) by reflexivity.
  clearbody self.
  unfold Namespace.call. rewrite Htrue. unfold bind.
  destruct (Namespace.vars self) as [|kv kvs] eqn:Ev.
  - exists template. split; [now rewrite Hself|]. split; [reflexivity|].
    intros ix ns H. exact H.
  - rewrite <- Ev, Hself. eexists. split; [reflexivity|]. split.
    + unfold enumerate. now rewrite length_map, length_combine, length_seq, Nat.min_id.
    + intros ix ns H. unfold enumerate.
      rewrite nth_error_map, nth_error_enumerate_from, H. reflexivity.
Qed.

Lemma call_resolves_template_witness :
  Namespace.call None (Namespace.init template_axby) (Some config_x)
  = Ok [PStr (lit "a"); PStr (lit "X"); PStr (lit "b"); PStr (lit "{y}")].
Proof.
  apply (proj2 (@call_resolves_template None template_axby config_x eq_refl)).
Defined.

(** C7 as stated fails for a supplied context that is an empty mapping:
    the resolver then asks for the ambient context, so outside of a running
    context it raises, and inside one it substitutes a value that the
    supplied context does not hold. *)
Lemma empty_context_uses_ambient :
  Namespace.call None (Namespace.init template_axby) (Some empty_config)
  = Raise (RuntimeError (lit "Called get_config outside of a runnable context"))
  /\ Namespace.call (Some config_x) (Namespace.init template_axby) (Some empty_config)
     = Ok [PStr (lit "a"); PStr (lit "X"); PStr (lit "b"); PStr (lit "{y}")]
  /\ ~ (forall ambient, exists resolved,
          Namespace.call ambient (Namespace.init template_axby) (Some empty_config)
          = Ok resolved
          /\ nth_error resolved 1 = Some (PStr (lit "{x}"))).
Proof.
  split; [reflexivity|]. split; [reflexivity|].
  intros H. destruct (H None) as [resolved [Hr _]]. discriminate.
Qed.

(** ** Session formatting *)

Section SessionFacts.
Import Sessions.
Variable uuid4 : nat -> N.
Variable merge_message_runs : pyobj -> result (list message).
Variable pretty_repr : message -> str.
Variable iter_message : message -> list pyobj.
Variable format_other : pyobj -> str.

Local Abbreviation format :=
  (format_sessions uuid4 merge_message_runs pretty_repr iter_message format_other).

(** Every empty input gives the empty string. *)
Lemma format_sessions_empty (sessions : pyobj) :
  truthy sessions = false -> format sessions = Ok [].
Proof. intros H. unfold format_sessions. now rewrite H. Qed.

(** The three shapes that the normalisation handles. *)
Lemma normalize_list_of_sessions (first : list pyobj) (others : list pyobj) :
  normalize (PList (PList first :: others))
  = PList (map (fun session => PTuple [session; PStr []]) (PList first :: others)).
Proof. reflexivity. Qed.

Lemma normalize_pair (session : list pyobj) (feedback : pyobj) :
  normalize (PTuple [PList session; feedback])
  = PList [PTuple [PList session; feedback]].
Proof. reflexivity. Qed.

Lemma normalize_list_of_pairs (pair : list pyobj) (others : list pyobj) :
  normalize (PList (PTuple pair :: others)) = PList (PTuple pair :: others).
Proof. reflexivity. Qed.
End SessionFacts.

(** C9, on the shape that the code misses: a single session, a list of
    messages that is not empty, passes through the normalisation as it is
    instead of becoming the one pair of the session and an empty feedback;
    the loop then unpacks its first message as a pair, which raises unless
    iterating over that message yields exactly two values. *)
Theorem single_session_is_not_normalized
    (uuid4 : nat -> N) (merge_message_runs : pyobj -> result (list message))
    (pretty_repr : message -> str) (iter_message : message -> list pyobj)
    (format_other : pyobj -> str) (m : message) (rest : list message) :
  let session := PList (map PMsg (m :: rest)) in
  Sessions.normalize session = session
  /\ Sessions.normalize session <> PList [PTuple [session; PStr []]]
  /\ (List.length (iter_message m) <> 2 ->
      exists msg,
        Sessions.format_sessions uuid4 merge_message_runs pretty_repr iter_message
          format_other session
        = Raise (ValueError msg)).
Proof.
  intros session. split; [reflexivity|]. split; [discriminate|].
  intros Hlen. unfold Sessions.format_sessions. simpl.
  unfold Sessions.unpack2, Sessions.py_iter.
  destruct (iter_message m) as [|a [|b [|c l]]]; simpl in *;
    try congruence; eexists; reflexivity.
Qed.

Lemma single_session_is_not_normalized_witness :
  exists msg,
    Sessions.format_sessions uuid4_sample merge_sample pretty_sample message_fields
      format_other_sample (PList [PMsg hello])
    = Raise (ValueError msg).
Proof.
  apply (proj2 (proj2 (single_session_is_not_normalized uuid4_sample merge_sample
                         pretty_sample message_fields format_other_sample hello []))).
  simpl. lia.
Defined.

(** ** The steps of the pipe, piece by piece *)

Section CopyRuns.
Variable match_at : str -> option nat.

Lemma re_pieces_copy_run (t rest : str) :
  (forall c s, In c t -> match_at (c :: s) = None) ->
  re_pieces match_at (t ++ rest) = map Copied t ++ re_pieces match_at rest.
Proof.
  induction t as [|c t IH]; intros H; simpl; [reflexivity|].
  rewrite re_pieces_copy by (apply H; now left).
  rewrite IH; [reflexivity|]. intros c' s' Hc. apply H. now right.
Qed.

Lemma subst_pieces_copied (repl : str -> result str) (t : str) (ps : list piece) :
  subst_pieces repl (map Copied t ++ ps) = (r <- subst_pieces repl ps ;; Ok (t ++ r)).
Proof.
  induction t as [|c t IH]; simpl.
  - now destruct (subst_pieces repl ps).
  - rewrite IH. now destruct (subst_pieces repl ps).
Qed.

Lemma re_sub_copy_run (repl : str -> result str) (t rest : str) :
  (forall c s, In c t -> match_at (c :: s) = None) ->
  re_sub match_at repl (t ++ rest) = (r <- re_sub match_at repl rest ;; Ok (t ++ r)).
Proof.
  intros H. unfold re_sub. rewrite re_pieces_copy_run by exact H.
  apply subst_pieces_copied.
Qed.

Lemma re_sub_match (repl : str -> result str) (m rest : str) :
  m <> [] -> match_at (m ++ rest) = Some (List.length m) ->
  re_sub match_at repl (m ++ rest)
  = (a <- repl m ;; r <- re_sub match_at repl rest ;; Ok (a ++ r)).
Proof.
  intros Hm H. unfold re_sub. now rewrite re_pieces_match.
Qed.

Lemma re_sub_copy (repl : str -> result str) (c : ascii) (rest : str) :
  match_at (c :: rest) = None ->
  re_sub match_at repl (c :: rest) = (r <- re_sub match_at repl rest ;; Ok (c :: r)).
Proof. intros H. unfold re_sub. now rewrite re_pieces_copy. Qed.
End CopyRuns.

Lemma no_brace_in (s : str) (c : ascii) : no_brace s = true -> In c s -> is_brace c = false.
Proof.
  intros H Hc. unfold no_brace in H.
  apply (proj1 (forallb_forall _ _) H) in Hc. now apply negb_true_iff.
Qed.

Lemma plain_no_brace (s : str) : plain s = true -> no_brace s = true.
Proof.
  unfold plain, no_brace. intros H. apply forallb_forall. intros c Hc.
  apply (proj1 (forallb_forall _ _) H) in Hc. unfold plain_char in Hc.
  now apply andb_true_iff in Hc.
Qed.

Lemma plain_no_lt (s : str) (c : ascii) :
  plain s = true -> In c s -> Ascii.eqb c "<"%char = false.
Proof.
  intros H Hc. apply (proj1 (forallb_forall _ _) H) in Hc. unfold plain_char in Hc.
  apply andb_true_iff in Hc. now apply negb_true_iff.
Qed.

Lemma not_brace_lbrace (c : ascii) : is_brace c = false -> Ascii.eqb c lbrace = false.
Proof. unfold is_brace. now intros H%orb_false_iff. Qed.

Lemma not_brace_rbrace (c : ascii) : is_brace c = false -> Ascii.eqb c rbrace = false.
Proof. unfold is_brace. now intros H%orb_false_iff. Qed.

(** A placeholder is a prefix of a text that starts with a placeholder only
    if the names are the same, names having no brace. *)
Lemma placeholder_prefix (v b rest : str) :
  no_brace v = true -> no_brace b = true ->
  prefixb (Healer.placeholder v) (Healer.placeholder b ++ rest) = true -> v = b.
Proof.
  unfold Healer.placeholder. cbn [prefixb app]. rewrite ascii_eqb_refl. cbn [andb].
  rewrite <- app_assoc. revert b. unfold no_brace.
  induction v as [|x v IH]; intros [|y b] Hv Hb; cbn [prefixb app forallb] in *.
  - reflexivity.
  - apply andb_true_iff in Hb. destruct Hb as [Hy _]. apply negb_true_iff in Hy.
    apply not_brace_rbrace in Hy. rewrite Ascii.eqb_sym, Hy. discriminate.
  - apply andb_true_iff in Hv. destruct Hv as [Hx _]. apply negb_true_iff in Hx.
    apply not_brace_rbrace in Hx. rewrite Hx. discriminate.
  - apply andb_true_iff in Hv. apply andb_true_iff in Hb.
    rewrite andb_true_iff, Ascii.eqb_eq. intros [-> H]. f_equal.
    apply IH; tauto.
Qed.

Lemma existsb_str_eqb (v : str) (vars : list str) :
  existsb (str_eqb v) vars = true <-> In v vars.
Proof.
  rewrite existsb_exists. split.
  - intros [x [Hx E]]. apply str_eqb_eq in E. now subst x.
  - intros H. exists v. split; [exact H|apply str_eqb_refl].
Qed.

Section MaskKeys.
Import Healer.
Variable uuid4 : nat -> N.
Variable vars : list str.
Hypothesis vars_set : NoDup vars.

Local Abbreviation d := (var_to_uuid uuid4 vars).

Lemma mask_key_is_placeholder (a : str) :
  In a (dict_keys d) <-> exists v, In v vars /\ a = placeholder v.
Proof.
  rewrite var_to_uuid_keys by exact vars_set. rewrite in_map_iff.
  split; intros [v [H1 H2]]; exists v; auto.
Qed.
End MaskKeys.

(** *** [escape] around text without braces *)

Lemma escape_as_one_pass (s : str) : escape s = escape_spec_from None s.
Proof. apply escape_is_escape_spec_from. Qed.

Lemma not_brace_neq (c b : ascii) :
  is_brace c = false -> is_brace b = true -> Ascii.eqb c b = false.
Proof.
  intros Hc Hb. destruct (Ascii.eqb c b) eqn:E; [|reflexivity].
  apply Ascii.eqb_eq in E. subst c. congruence.
Qed.

Lemma escape_spec_from_app_plain (prev : option ascii) (t rest : str) :
  no_brace t = true ->
  escape_spec_from prev (t ++ rest) = t ++ escape_spec_from (prev_after prev t) rest.
Proof.
  unfold no_brace. revert prev.
  induction t as [|c t IH]; intros prev H; cbn [forallb app] in *; [reflexivity|].
  apply andb_true_iff in H. destruct H as [Hc Ht]. apply negb_true_iff in Hc.
  cbn [escape_spec_from]. rewrite Hc. cbn [andb]. f_equal. now apply IH.
Qed.

Lemma prev_after_not_brace (b : ascii) (prev : option ascii) (t : str) :
  is_brace b = true -> no_brace t = true -> is_char b prev = false ->
  is_char b (prev_after prev t) = false.
Proof.
  intros Hb. unfold no_brace, prev_after. revert prev.
  induction t as [|c t IH]; intros prev H Hp; cbn [forallb fold_left] in *; [exact Hp|].
  apply andb_true_iff in H. destruct H as [Hc Ht]. apply negb_true_iff in Hc.
  apply IH; [exact Ht|]. cbn [is_char]. now apply not_brace_neq.
Qed.

Lemma hd_app_not (b : ascii) (t rest : str) :
  (forall c, In c t -> Ascii.eqb c b = false) ->
  is_char b (hd_error rest) = false -> is_char b (hd_error (t ++ rest)) = false.
Proof.
  intros Ht Hr. destruct t as [|c t]; [exact Hr|]. cbn. apply Ht. now left.
Qed.

Lemma escape_spec_from_stray (prev : option ascii) (b rest : str) :
  is_char lbrace prev = false -> no_brace b = true ->
  is_char rbrace (hd_error rest) = false ->
  escape_spec_from prev (Healer.placeholder b ++ rest)
  = (lbrace :: Healer.placeholder b ++ [rbrace]) ++ escape_spec_from (Some rbrace) rest.
Proof.
  intros Hp Hb Hr. unfold Healer.placeholder.
  cbn [app escape_spec_from].
  assert (Hnext : is_char lbrace (hd_error ((b ++ [rbrace]) ++ rest)) = false).
  { rewrite <- app_assoc. apply hd_app_not; [|reflexivity].
    intros c Hc. apply not_brace_lbrace. now apply (no_brace_in b). }
  rewrite Hp, Hnext. change (is_brace lbrace) with true. cbn [andb negb].
  do 2 f_equal. rewrite <- !app_assoc.
  rewrite escape_spec_from_app_plain by exact Hb. f_equal.
  cbn [app escape_spec_from]. rewrite Hr.
  assert (Hprev : is_char rbrace (prev_after (Some lbrace) b) = false)
    by now apply prev_after_not_brace.
  rewrite Hprev. change (is_brace rbrace) with true. cbn [andb negb]. reflexivity.
Qed.

Lemma hex_digit_is_hex (x : N) : is_hex (hex_digit (N.modulo x 16)) = true.
Proof.
  assert (H : (N.modulo x 16 < 16)%N) by now apply N.mod_lt.
  unfold hex_digit. remember (N.to_nat (N.modulo x 16)) as n eqn:En.
  assert (Hn : n < 16) by lia. clear En H.
  do 16 (destruct n as [|n]; [reflexivity|]). lia.
Qed.

Lemma hex_digits_hex (n : nat) (x : N) : forallb is_hex (hex_digits n x) = true.
Proof.
  revert x. induction n as [|n IH]; intros x; cbn [hex_digits]; [reflexivity|].
  rewrite forallb_app, IH. cbn [forallb]. now rewrite hex_digit_is_hex.
Qed.

Lemma hex_plain_char (c : ascii) : is_hex c = true -> plain_char c = true.
Proof. destruct c as [[] [] [] [] [] [] [] []]; vm_compute; congruence. Qed.

Lemma uuid_hex_plain (u : N) : plain (uuid_hex u) = true.
Proof.
  unfold plain. apply forallb_forall. intros c Hc. apply hex_plain_char.
  now apply (proj1 (forallb_forall _ _) (hex_digits_hex 32 u)).
Qed.

Lemma to_optimize_match_other (c : ascii) (s : str) :
  Ascii.eqb c "<"%char = false -> to_optimize_match (c :: s) = None.
Proof.
  intros Hc. unfold to_optimize_match, open_tag, close_tag.
  cbn [lit list_ascii_of_string strip_prefix prefixb].
  rewrite Ascii.eqb_sym, Hc. reflexivity.
Qed.

Lemma copied_text_copied (t : str) (ps : list piece) :
  copied_text (map Copied t ++ ps) = t ++ copied_text ps.
Proof. induction t as [|c t IH]; cbn; [reflexivity|]. now f_equal. Qed.

Lemma strip_text_copy_run (t rest : str) :
  (forall c, In c t -> Ascii.eqb c "<"%char = false) ->
  strip_text (t ++ rest) = t ++ strip_text rest.
Proof.
  intros H. unfold strip_text. rewrite re_pieces_copy_run.
  - apply copied_text_copied.
  - intros c s Hc. apply to_optimize_match_other. now apply H.
Qed.

Lemma masked_text_copied (d : dict str str) (t : str) (ps : list piece) :
  masked_text d (map Copied t ++ ps) = t ++ masked_text d ps.
Proof. induction t as [|c t IH]; cbn; [reflexivity|]. now f_equal. Qed.

Lemma piece_text_copied (t : str) (ps : list piece) :
  flat_map piece_text (map Copied t ++ ps) = t ++ flat_map piece_text ps.
Proof. induction t as [|c t IH]; cbn; [reflexivity|]. now f_equal. Qed.

Lemma healer_is_pipe (uuid4 : nat -> N) (vars : list str) (all_required : bool) :
  vars <> [] ->
  Healer._get_var_healer uuid4 (Healer.VarSet vars) all_required
  = Healer.pipe uuid4 vars all_required.
Proof.
  intros H. unfold Healer._get_var_healer, Healer.healer.
  destruct vars; [congruence|reflexivity].
Qed.

Lemma assert_all_required_present (vars : list str) (s : str) :
  (forall v, In v vars -> str_in (Healer.placeholder v) s = true) ->
  Healer.assert_all_required vars true s = Ok s.
Proof.
  intros Hall. unfold Healer.assert_all_required. cbn [negb].
  destruct (Healer.missing_vars vars s) as [|m ms] eqn:E; [reflexivity|].
  assert (Hm : In m (Healer.missing_vars vars s)) by (rewrite E; now left).
  unfold Healer.missing_vars in Hm. apply filter_In in Hm. destruct Hm as [Hin Hf].
  rewrite (Hall _ Hin) in Hf. discriminate.
Qed.

Lemma hex_neq (c x : ascii) : is_hex c = true -> is_hex x = false -> Ascii.eqb c x = false.
Proof.
  intros Hc Hx. destruct (Ascii.eqb c x) eqn:E; [|reflexivity].
  apply Ascii.eqb_eq in E. subst c. congruence.
Qed.

Lemma uuid_hex_cons2 (u : N) :
  exists c0 c1 r, uuid_hex u = c0 :: c1 :: r /\ is_hex c0 = true /\ is_hex c1 = true.
Proof.
  pose proof (hex_digits_length 32 u) as Hlen.
  pose proof (hex_digits_hex 32 u) as Hhex.
  unfold uuid_hex. destruct (hex_digits 32 u) as [|c0 [|c1 r]]; try discriminate.
  cbn [forallb] in Hhex. apply andb_true_iff in Hhex. destruct Hhex as [H0 Hhex].
  apply andb_true_iff in Hhex. destruct Hhex as [H1 _].
  now exists c0, c1, r.
Qed.

Lemma mem_char_false (b : ascii) (s : str) (c : ascii) :
  mem_char b s = false -> In c s -> Ascii.eqb c b = false.
Proof.
  unfold mem_char. intros H Hc.
  destruct (Ascii.eqb c b) eqn:E; [|reflexivity].
  apply Ascii.eqb_eq in E. subst c.
  assert (existsb (Ascii.eqb b) s = true); [|congruence].
  apply existsb_exists. exists b. split; [exact Hc|apply ascii_eqb_refl].
Qed.

Lemma strip_prefix_some (p s rest : str) : strip_prefix p s = Some rest -> s = p ++ rest.
Proof.
  revert s. induction p as [|a p IH]; intros [|b s]; cbn; try discriminate.
  - now intros [= ->].
  - now intros [= ->].
  - destruct (Ascii.eqb a b) eqn:E; [|discriminate].
    apply Ascii.eqb_eq in E. subst b. intros H. f_equal. now apply IH.
Qed.

Lemma index_char_lt (c : ascii) (s : str) (n : nat) :
  index_char c s = Some n -> n < List.length s.
Proof.
  revert n. induction s as [|d s IH]; intros n; cbn [index_char List.length];
    [discriminate|].
  destruct (Ascii.eqb d c); [intros [= <-]; lia|].
  destruct (index_char c s) as [k|]; [|discriminate].
  cbn [option_map]. intros [= <-]. specialize (IH k eq_refl). lia.
Qed.

Lemma index_char_none (c : ascii) (s : str) :
  mem_char c s = false -> index_char c s = None.
Proof.
  induction s as [|d s IH]; cbn; [reflexivity|].
  intros H. apply orb_false_iff in H. destruct H as [H1 H2].
  rewrite Ascii.eqb_sym in H1. now rewrite H1, IH.
Qed.

Lemma to_optimize_match_le (t : str) (n : nat) :
  to_optimize_match t = Some n -> n <= List.length t.
Proof.
  unfold to_optimize_match.
  destruct (strip_prefix open_tag t) as [rest|] eqn:Ep.
  - apply strip_prefix_some in Ep. subst t.
    destruct (index_char ">"%char rest) as [k|] eqn:Ek; cbn [option_map].
    + apply index_char_lt in Ek. intros [= <-]. rewrite length_app.
      change (List.length open_tag) with 12. lia.
    + change (prefixb close_tag (open_tag ++ rest)) with false. discriminate.
  - destruct (prefixb close_tag t) eqn:Ec; [|discriminate].
    apply prefixb_spec in Ec. destruct Ec as [r ->]. intros [= <-].
    rewrite length_app. change (List.length close_tag) with 14. lia.
Qed.

Lemma str_in_middle (n a b : str) : str_in n (a ++ n ++ b) = true.
Proof.
  induction a as [|c a IH].
  - cbn [app]. destruct (n ++ b) eqn:E; cbn [str_in]; rewrite <- E, prefixb_app; reflexivity.
  - cbn [app str_in]. rewrite IH. apply orb_true_r.
Qed.

(** ** Text around placeholders *)

Lemma seg_pieces_text (segs : list (str * str)) (last : str) :
  flat_map piece_text (seg_pieces segs last) = keys_text segs last.
Proof.
  induction segs as [|[t v] segs IH]; cbn [seg_pieces keys_text].
  - rewrite <- (app_nil_r (map Copied last)), piece_text_copied. apply app_nil_r.
  - rewrite piece_text_copied. cbn [flat_map piece_text]. now rewrite IH.
Qed.

Lemma seg_pieces_masked (d : dict str str) (segs : list (str * str)) (last : str) :
  masked_text d (seg_pieces segs last) = tokens_text d segs last.
Proof.
  induction segs as [|[t v] segs IH]; cbn [seg_pieces tokens_text].
  - rewrite <- (app_nil_r (map Copied last)), masked_text_copied. apply app_nil_r.
  - rewrite masked_text_copied. f_equal.
    change (masked_text d (Matched (Healer.placeholder v) :: seg_pieces segs last))
      with (lookup d (Healer.placeholder v) ++ masked_text d (seg_pieces segs last)).
    now rewrite IH.
Qed.

Lemma map_texts_cons (f : str -> str) (t v : str) (segs : list (str * str)) :
  map_texts f ((t, v) :: segs) = (f t, v) :: map_texts f segs.
Proof. reflexivity. Qed.

Lemma map_texts_known (f : str -> str) (vars : list str) (segs : list (str * str)) :
  Forall (fun tv => In (snd tv) vars) segs ->
  Forall (fun tv => In (snd tv) vars) (map_texts f segs).
Proof.
  unfold map_texts. induction 1 as [|tv segs H _ IH]; cbn [map]; constructor; assumption.
Qed.

Lemma none_within_no_lbrace (vars : list str) (t rest : str) :
  (forall c, In c t -> Ascii.eqb c lbrace = false) -> none_within vars t rest = true.
Proof.
  induction t as [|c t IH]; intros H; cbn [none_within]; [reflexivity|].
  rewrite IH by (intros c' Hc'; apply H; now right). rewrite andb_true_r.
  apply negb_true_iff.
  destruct (existsb (fun w => prefixb (Healer.placeholder w) (c :: t ++ rest)) vars) eqn:X;
    [|reflexivity].
  apply existsb_exists in X. destruct X as [w [_ Hp]].
  unfold Healer.placeholder in Hp. cbn [prefixb app] in Hp.
  rewrite Ascii.eqb_sym, (H c (or_introl eq_refl)) in Hp. discriminate.
Qed.

Lemma in_combine_tokens (f : nat -> str) (l : list str) :
  forall a i v,
    nth_error l i = Some v ->
    In (Healer.placeholder v, f (a + i))
       (combine (map Healer.placeholder l) (map f (seq a (List.length l)))).
Proof.
  induction l as [|x l IH]; intros a [|i] v H; cbn in H; try discriminate.
  - injection H as ->. cbn. left. now rewrite Nat.add_0_r.
  - cbn [List.length seq map combine]. right.
    rewrite Nat.add_succ_r. apply (IH (S a) i v H).
Qed.

Section MarkedText.
Import Healer.
Variable uuid4 : nat -> N.
Variable vars : list str.
Hypothesis vars_set : NoDup vars.

Local Abbreviation d := (var_to_uuid uuid4 vars).

(** The token of the i-th variable is the i-th UUID drawn. *)
Lemma var_token (i : nat) (v : str) :
  nth_error vars i = Some v ->
  dict_get str_eqb (placeholder v) d = Some (uuid_hex (uuid4 i)).
Proof.
  intros H. apply (@dict_get_nodup _ _ _ str_eqb_eq).
  - rewrite var_to_uuid_keys by exact vars_set.
    apply NoDup_map_inj; [exact placeholder_inj|exact vars_set].
  - rewrite var_to_uuid_items by exact vars_set. unfold tokens.
    apply (@in_combine_tokens (fun k => uuid_hex (uuid4 k)) vars 0 i v H).
Qed.

Lemma token_is_hex (v : str) :
  In v vars ->
  exists c0 r, lookup d (placeholder v) = c0 :: r /\ forallb is_hex (c0 :: r) = true.
Proof.
  intros Hv. apply In_nth_error in Hv. destruct Hv as [i Hi].
  unfold lookup. rewrite (@var_token i v Hi).
  pose proof (hex_digits_hex 32 (uuid4 i)) as Hhex.
  pose proof (hex_digits_length 32 (uuid4 i)) as Hlen.
  unfold uuid_hex. destruct (hex_digits 32 (uuid4 i)) as [|c0 r]; [discriminate|].
  now exists c0, r.
Qed.

Lemma mask_pattern_none (s : str) :
  existsb (fun w => prefixb (placeholder w) s) vars = false <->
  mask_pattern uuid4 vars s = None.
Proof.
  unfold mask_pattern, alt_match. rewrite var_to_uuid_keys by exact vars_set.
  split; intros H.
  - destruct (find (fun a => prefixb a s) (map placeholder vars)) as [a|] eqn:E;
      [|reflexivity].
    apply find_some in E. destruct E as [Ha Hp].
    apply in_map_iff in Ha. destruct Ha as [w [<- Hw]].
    assert (X : existsb (fun w => prefixb (placeholder w) s) vars = true)
      by (apply existsb_exists; now exists w).
    congruence.
  - destruct (find (fun a => prefixb a s) (map placeholder vars)) as [a|] eqn:E;
      [discriminate|].
    destruct (existsb (fun w => prefixb (placeholder w) s) vars) eqn:X; [|reflexivity].
    apply existsb_exists in X. destruct X as [w [Hw Hp]].
    assert (Hin : In (placeholder w) (map placeholder vars)) by now apply in_map.
    apply (find_none _ _ E) in Hin. congruence.
Qed.

Lemma mask_pattern_marked (v rest : str) :
  In v vars ->
  forallb (fun w => implb (prefixb (placeholder w) (placeholder v ++ rest)) (str_eqb w v)) vars
  = true ->
  mask_pattern uuid4 vars (placeholder v ++ rest) = Some (List.length (placeholder v)).
Proof.
  intros Hv Hall. unfold mask_pattern, alt_match.
  rewrite var_to_uuid_keys by exact vars_set.
  destruct (find (fun a => prefixb a (placeholder v ++ rest)) (map placeholder vars))
    as [a|] eqn:E.
  - apply find_some in E. destruct E as [Ha Hp].
    apply in_map_iff in Ha. destruct Ha as [w [<- Hw]].
    apply (proj1 (forallb_forall _ _) Hall) in Hw. rewrite Hp in Hw. cbn [implb] in Hw.
    apply str_eqb_eq in Hw. now subst w.
  - assert (Hin : In (placeholder v) (map placeholder vars)) by now apply in_map.
    apply (find_none _ _ E) in Hin. now rewrite prefixb_app in Hin.
Qed.

Lemma mask_scan_within (t rest : str) :
  none_within vars t rest = true ->
  re_pieces (mask_pattern uuid4 vars) (t ++ rest)
  = map Copied t ++ re_pieces (mask_pattern uuid4 vars) rest.
Proof.
  induction t as [|c t IH]; cbn [none_within app map]; intros H; [reflexivity|].
  apply andb_true_iff in H. destruct H as [H1 H2]. apply negb_true_iff in H1.
  rewrite re_pieces_copy by now apply mask_pattern_none.
  now rewrite IH.
Qed.

Lemma marked_only_cons (t v : str) (segs : list (str * str)) (last : str) :
  marked_only vars ((t, v) :: segs) last = true <->
  none_within vars t (placeholder v ++ keys_text segs last) = true
  /\ In v vars
  /\ forallb (fun w => implb (prefixb (placeholder w)
                                      (placeholder v ++ keys_text segs last))
                             (str_eqb w v)) vars = true
  /\ none_within vars (tl (placeholder v)) (keys_text segs last) = true
  /\ marked_only vars segs last = true.
Proof.
  cbn [marked_only]. rewrite !andb_true_iff, existsb_str_eqb. tauto.
Qed.

Lemma marked_known (segs : list (str * str)) (last : str) :
  marked_only vars segs last = true -> Forall (fun tv => In (snd tv) vars) segs.
Proof.
  induction segs as [|[t v] segs IH]; intros H; [constructor|].
  apply marked_only_cons in H. constructor; [apply H|apply IH, H].
Qed.

(** On a text whose placeholders are written out the scan of [mask] takes
    exactly the written placeholders. *)
Lemma scan_marked (segs : list (str * str)) (last : str) :
  marked_only vars segs last = true ->
  re_pieces (mask_pattern uuid4 vars) (keys_text segs last) = seg_pieces segs last.
Proof.
  induction segs as [|[t v] segs IH]; intros H.
  - cbn [marked_only keys_text seg_pieces] in *.
    rewrite <- (app_nil_r last) at 1. rewrite mask_scan_within by exact H.
    cbn. apply app_nil_r.
  - apply marked_only_cons in H. destruct H as [H1 [H2 [H3 [H4 H5]]]].
    cbn [keys_text seg_pieces]. rewrite mask_scan_within by exact H1. f_equal.
    rewrite re_pieces_match; [|discriminate|now apply mask_pattern_marked].
    f_equal. now apply IH.
Qed.

Lemma seg_pieces_in_keys (segs : list (str * str)) (last : str) :
  Forall (fun tv => In (snd tv) vars) segs ->
  Forall (fun p => match p with
                   | Matched m => In m (dict_keys d)
                   | Copied _ => True
                   end) (seg_pieces segs last).
Proof.
  assert (Hcopied : forall t, Forall (fun p => match p with
                                               | Matched m => In m (dict_keys d)
                                               | Copied _ => True
                                               end) (map Copied t)).
  { intros t. apply Forall_forall. intros p Hp. apply in_map_iff in Hp.
    now destruct Hp as [c' [<- _]]. }
  induction 1 as [|[t v] segs Hv _ IH]; cbn [seg_pieces]; [apply Hcopied|].
  apply Forall_app. split; [apply Hcopied|]. constructor; [|exact IH].
  apply mask_key_is_placeholder; [exact vars_set|]. now exists v.
Qed.

(** [mask] writes the token of every written placeholder and keeps the
    text. *)
Lemma mask_marked (segs : list (str * str)) (last : str) :
  marked_only vars segs last = true ->
  mask uuid4 vars (keys_text segs last) = Ok (tokens_text d segs last).
Proof.
  intros H. unfold mask, re_sub. rewrite scan_marked by exact H.
  rewrite mask_masked_text by (apply seg_pieces_in_keys; eapply marked_known; exact H).
  now rewrite seg_pieces_masked.
Qed.

(** [unmask] writes the placeholders back. *)
Lemma unmask_tokens_text (segs : list (str * str)) (last : str) :
  NoDup (tokens uuid4 vars) ->
  Forall (fun tv => In (snd tv) vars) segs ->
  copied_clean d (seg_pieces segs last) = true ->
  unmask uuid4 vars (tokens_text d segs last) = Ok (keys_text segs last).
Proof.
  intros Htok Hknown Hclean.
  rewrite <- seg_pieces_masked, <- seg_pieces_text.
  unfold unmask, unmask_pattern, uuid_to_var.
  apply unmask_masked_text with (width := 32).
  - lia.
  - intros t Ht. rewrite var_to_uuid_values in Ht by assumption.
    now apply token_length in Ht.
  - now rewrite var_to_uuid_values.
  - now apply seg_pieces_in_keys.
  - exact Hclean.
Qed.

(** When no name holds a brace every string is a text whose placeholders
    are written out. *)
Lemma marked_exists_upto (n : nat) :
  forallb no_brace vars = true ->
  forall s, List.length s <= n ->
            exists segs last, s = keys_text segs last /\ marked_only vars segs last = true.
Proof.
  intros Hnb. induction n as [|n IH]; intros s Hlen.
  - destruct s; [|cbn in Hlen; lia]. now exists [], [].
  - destruct s as [|c s]; [now exists [], []|].
    destruct (mask_pattern uuid4 vars (c :: s)) as [k|] eqn:E.
    + apply alt_match_spec in E. destruct E as [Hin [_ Hp]].
      apply mask_key_is_placeholder in Hin; [|exact vars_set].
      destruct Hin as [v [Hv Ev]]. rewrite Ev in Hp.
      apply prefixb_spec in Hp. destruct Hp as [r Er].
      assert (Hr : List.length r <= n).
      { apply (f_equal (@List.length ascii)) in Er.
        unfold placeholder in Er. cbn [List.length app] in Er.
        rewrite !length_app in Er. cbn in Hlen, Er. lia. }
      destruct (IH r Hr) as [segs [last [-> Hm]]].
      exists (([], v) :: segs), last. split; [exact Er|].
      apply marked_only_cons. split; [reflexivity|]. split; [exact Hv|].
      assert (Hvb : no_brace v = true)
        by now apply (proj1 (forallb_forall _ _) Hnb).
      split; [|split; [|exact Hm]].
      * apply forallb_forall. intros w Hw.
        destruct (prefixb (placeholder w) (placeholder v ++ keys_text segs last)) eqn:P;
          [|reflexivity].
        cbn [implb]. apply str_eqb_eq.
        apply placeholder_prefix in P; [exact P| |exact Hvb].
        now apply (proj1 (forallb_forall _ _) Hnb).
      * apply none_within_no_lbrace. unfold placeholder. cbn [tl].
        intros c' Hc'. apply in_app_or in Hc'. destruct Hc' as [Hc'|[<-|[]]]; [|reflexivity].
        apply not_brace_lbrace. now apply (no_brace_in v).
    + assert (Hs : List.length s <= n) by (cbn in Hlen; lia).
      destruct (IH s Hs) as [segs [last [-> Hm]]].
      apply mask_pattern_none in E.
      destruct segs as [|[t v] segs].
      * exists [], (c :: last). split; [reflexivity|].
        cbn [marked_only keys_text none_within] in *.
        rewrite app_nil_r, E, Hm. reflexivity.
      * exists ((c :: t, v) :: segs), last. split; [reflexivity|].
        apply marked_only_cons in Hm. destruct Hm as [H1 [H2 [H3 [H4 H5]]]].
        apply marked_only_cons. repeat split; try assumption.
        cbn [none_within keys_text app] in *. now rewrite E, H1.
Qed.

Lemma marked_exists (s : str) :
  forallb no_brace vars = true ->
  exists segs last, s = keys_text segs last /\ marked_only vars segs last = true.
Proof. intros Hnb. now apply (@marked_exists_upto (List.length s) Hnb). Qed.
End MarkedText.

(** ** [escape] and the removal of the tags, piece by piece *)

Lemma escape_spec_from_app (prev : option ascii) (u rest : str) :
  (forall c, hd_error rest = Some c -> is_brace c = true ->
             is_char c (prev_after prev u) = false) ->
  escape_spec_from prev (u ++ rest)
  = escape_spec_from prev u ++ escape_spec_from (prev_after prev u) rest.
Proof.
  revert prev. induction u as [|c u IH]; intros prev H; [reflexivity|].
  cbn [app escape_spec_from].
  assert (Hsame : is_brace c && negb (is_char c prev)
                  && negb (is_char c (hd_error (u ++ rest)))
                  = is_brace c && negb (is_char c prev) && negb (is_char c (hd_error u))).
  { destruct u as [|x u]; [|reflexivity]. cbn [app hd_error is_char].
    destruct (is_brace c) eqn:B; [|reflexivity].
    destruct rest as [|y rest]; [reflexivity|]. cbn [hd_error is_char].
    destruct (Ascii.eqb y c) eqn:E; [|reflexivity].
    apply Ascii.eqb_eq in E. subst y.
    specialize (H c eq_refl B). cbn in H. now rewrite ascii_eqb_refl in H. }
  rewrite Hsame.
  change (prev_after prev (c :: u)) with (prev_after (Some c) u) in *.
  destruct (is_brace c && negb (is_char c prev) && negb (is_char c (hd_error u)));
    cbn [app]; rewrite (IH (Some c) H); reflexivity.
Qed.

Lemma escape_spec_from_prev (prev : option ascii) (s : str) :
  (forall c, hd_error s = Some c -> is_brace c = true -> is_char c prev = false) ->
  escape_spec_from prev s = escape_spec_from None s.
Proof.
  destruct s as [|c s]; [reflexivity|]. intros H. cbn [escape_spec_from is_char].
  destruct (is_brace c) eqn:B; [|reflexivity].
  now rewrite (H c eq_refl B).
Qed.

Lemma prev_after_text_not_brace (b : ascii) (prev : option ascii) (c : ascii) (t : str) :
  is_brace b = true -> no_brace (c :: t) = true ->
  is_char b (prev_after prev (c :: t)) = false.
Proof.
  intros Hb Ht. change (prev_after prev (c :: t)) with (prev_after (Some c) t).
  unfold no_brace in Ht. cbn [forallb] in Ht. apply andb_true_iff in Ht.
  destruct Ht as [Hc Ht]. apply negb_true_iff in Hc.
  apply prev_after_not_brace; [exact Hb|exact Ht|].
  cbn [is_char]. now apply not_brace_neq.
Qed.

Lemma hex_str_plain (t : str) : forallb is_hex t = true -> plain t = true.
Proof.
  intros H. unfold plain. apply forallb_forall. intros c Hc. apply hex_plain_char.
  now apply (proj1 (forallb_forall _ _) H).
Qed.

Lemma hex_not_in (c : ascii) (s : str) :
  is_hex c = true -> forallb (fun x => negb (is_hex x)) s = true -> mem_char c s = false.
Proof.
  intros Hc Hs. unfold mem_char.
  destruct (existsb (Ascii.eqb c) s) eqn:E; [|reflexivity].
  apply existsb_exists in E. destruct E as [x [Hx Ex]].
  apply Ascii.eqb_eq in Ex. subst x.
  apply (proj1 (forallb_forall _ _) Hs) in Hx. now rewrite Hc in Hx.
Qed.

Lemma hex_str_without (x : ascii) (t : str) :
  is_hex x = false -> forallb is_hex t = true -> mem_char x t = false.
Proof.
  intros Hx Ht. unfold mem_char.
  destruct (existsb (Ascii.eqb x) t) eqn:E; [|reflexivity].
  apply existsb_exists in E. destruct E as [c [Hc Ec]].
  apply Ascii.eqb_eq in Ec. subst c.
  apply (proj1 (forallb_forall _ _) Ht) in Hc. congruence.
Qed.

Lemma mem_char_app (c : ascii) (a b : str) :
  mem_char c (a ++ b) = mem_char c a || mem_char c b.
Proof. unfold mem_char. apply existsb_app. Qed.

(** *** A tag that begins in [w] and what follows [w] *)

Lemma strip_prefix_app_some (p w w' rest : str) :
  strip_prefix p w = Some w' -> strip_prefix p (w ++ rest) = Some (w' ++ rest).
Proof.
  revert w. induction p as [|a p IH]; intros w; cbn [strip_prefix].
  - now intros [= <-].
  - destruct w as [|b w]; [discriminate|]. cbn [app strip_prefix].
    destruct (Ascii.eqb a b); [apply IH|discriminate].
Qed.

Lemma strip_prefix_app_none (p w rest : str) :
  (forall c, hd_error rest = Some c -> mem_char c p = false) ->
  strip_prefix p w = None -> strip_prefix p (w ++ rest) = None.
Proof.
  revert w. induction p as [|a p IH]; intros w Hh H; [destruct w; discriminate|].
  assert (Hh' : forall c, hd_error rest = Some c -> mem_char c p = false).
  { intros c Hc. specialize (Hh c Hc). unfold mem_char in *. cbn [existsb] in Hh.
    now apply orb_false_iff in Hh. }
  destruct w as [|b w]; cbn [app].
  - destruct rest as [|c r]; [reflexivity|]. cbn [strip_prefix].
    specialize (Hh c eq_refl). unfold mem_char in Hh. cbn [existsb] in Hh.
    apply orb_false_iff in Hh. destruct Hh as [Hh _].
    rewrite Ascii.eqb_sym, Hh. reflexivity.
  - cbn [strip_prefix] in *. destruct (Ascii.eqb a b); [|reflexivity].
    now apply IH.
Qed.

Lemma prefixb_app_same (p w rest : str) :
  (forall c, hd_error rest = Some c -> mem_char c p = false) ->
  prefixb p (w ++ rest) = prefixb p w.
Proof.
  revert w. induction p as [|a p IH]; intros w Hh; [reflexivity|].
  assert (Hh' : forall c, hd_error rest = Some c -> mem_char c p = false).
  { intros c Hc. specialize (Hh c Hc). unfold mem_char in *. cbn [existsb] in Hh.
    now apply orb_false_iff in Hh. }
  destruct w as [|b w]; cbn [app].
  - destruct rest as [|c r]; [reflexivity|]. cbn [prefixb].
    specialize (Hh c eq_refl). unfold mem_char in Hh. cbn [existsb] in Hh.
    apply orb_false_iff in Hh. destruct Hh as [Hh _].
    rewrite Ascii.eqb_sym, Hh. reflexivity.
  - cbn [prefixb]. now rewrite IH.
Qed.

Lemma strip_prefix_prefixb (p w w' : str) :
  strip_prefix p w = Some w' -> prefixb p w = true /\ w' = skipn (List.length p) w.
Proof.
  intros H. apply strip_prefix_some in H. subst w.
  split; [apply prefixb_app|].
  now rewrite skipn_app, skipn_all, Nat.sub_diag.
Qed.

Lemma index_char_app_l (c : ascii) (w rest : str) :
  mem_char c w = true -> index_char c (w ++ rest) = index_char c w.
Proof.
  unfold mem_char. induction w as [|x w IH]; cbn [existsb app index_char]; [discriminate|].
  rewrite (Ascii.eqb_sym c x). destruct (Ascii.eqb x c); [reflexivity|].
  cbn [orb]. intros H. now rewrite IH.
Qed.

Lemma to_optimize_match_app (w rest : str) :
  (forall c, hd_error rest = Some c ->
             mem_char c open_tag = false /\ mem_char c close_tag = false) ->
  (prefixb open_tag w = true ->
   mem_char ">"%char (skipn (List.length open_tag) w) = true
   \/ mem_char ">"%char rest = false) ->
  to_optimize_match (w ++ rest) = to_optimize_match w.
Proof.
  intros Hh Hc. unfold to_optimize_match.
  rewrite (@prefixb_app_same close_tag w rest) by (intros c E; apply (Hh c E)).
  destruct (strip_prefix open_tag w) as [w'|] eqn:E.
  - rewrite (@strip_prefix_app_some open_tag w w' rest E).
    destruct (@strip_prefix_prefixb open_tag w w' E) as [Hp Ew].
    destruct (mem_char ">"%char w') eqn:M.
    + now rewrite index_char_app_l.
    + destruct (Hc Hp) as [H|H]; [congruence|].
      rewrite !index_char_none; [reflexivity|exact M|].
      rewrite mem_char_app, M, H. reflexivity.
  - rewrite strip_prefix_app_none; [reflexivity| |exact E].
    intros c Ec. apply (Hh c Ec).
Qed.

Lemma strip_pieces_app (u rest : str) :
  (forall c, hd_error rest = Some c ->
             mem_char c open_tag = false /\ mem_char c close_tag = false) ->
  tags_closed u = true \/ mem_char ">"%char rest = false ->
  forall k, k <= List.length u ->
            re_pieces_from to_optimize_match k (u ++ rest)
            = re_pieces_from to_optimize_match k u ++ re_pieces to_optimize_match rest.
Proof.
  intros Hh. induction u as [|c u IH]; intros Hc k Hk.
  - cbn in Hk. assert (k = 0) by lia. subst k. reflexivity.
  - assert (Hc' : tags_closed u = true \/ mem_char ">"%char rest = false).
    { destruct Hc as [H|H]; [left|now right]. cbn [tags_closed] in H.
      now apply andb_true_iff in H. }
    destruct k as [|k]; cbn [app re_pieces_from].
    + change (c :: u ++ rest) with ((c :: u) ++ rest).
      rewrite to_optimize_match_app; [|exact Hh|].
      * destruct (to_optimize_match (c :: u)) as [[|n]|] eqn:E.
        -- cbn [app]. f_equal. apply (IH Hc' 0). lia.
        -- apply to_optimize_match_le in E. cbn [List.length] in E.
           rewrite firstn_app.
           replace (S n - List.length (c :: u)) with 0 by (cbn [List.length]; lia).
           cbn [firstn]. rewrite app_nil_r. cbn [app]. f_equal.
           apply (IH Hc' n). lia.
        -- cbn [app]. f_equal. apply (IH Hc' 0). lia.
      * intros Hp. destruct Hc as [H|H]; [left|now right].
        cbn [tags_closed] in H. apply andb_true_iff in H. destruct H as [H _].
        now rewrite Hp in H.
    + apply (IH Hc' k). cbn in Hk. lia.
Qed.

Lemma strip_text_app (u rest : str) :
  (forall c, hd_error rest = Some c ->
             mem_char c open_tag = false /\ mem_char c close_tag = false) ->
  tags_closed u = true \/ mem_char ">"%char rest = false ->
  strip_text (u ++ rest) = strip_text u ++ strip_text rest.
Proof.
  intros Hh Hc. unfold strip_text, re_pieces.
  rewrite strip_pieces_app by (assumption || lia).
  unfold copied_text. apply flat_map_app.
Qed.

Lemma hex_not_tag_char (c : ascii) :
  is_hex c = true -> mem_char c open_tag = false /\ mem_char c close_tag = false.
Proof. destruct c as [[] [] [] [] [] [] [] []]; vm_compute; intuition congruence. Qed.

(** *** Occurrences of known placeholders are the written ones *)

Lemma str_in_app_r (n a b : str) : str_in n b = true -> str_in n (a ++ b) = true.
Proof.
  intros H. induction a as [|c a IH]; [exact H|].
  cbn [app str_in]. rewrite IH. apply orb_true_r.
Qed.

Lemma written_occurs (v : str) (segs : list (str * str)) (last : str) :
  In v (map snd segs) -> str_in (Healer.placeholder v) (keys_text segs last) = true.
Proof.
  induction segs as [|[t w] segs IH]; cbn [map snd In keys_text]; [tauto|].
  intros [->|H].
  - apply str_in_middle.
  - apply str_in_app_r, str_in_app_r. now apply IH.
Qed.

Lemma none_within_occurs (vars : list str) (t rest v : str) :
  none_within vars t rest = true ->
  In v vars ->
  str_in (Healer.placeholder v) (t ++ rest) = true ->
  str_in (Healer.placeholder v) rest = true.
Proof.
  induction t as [|c t IH]; cbn [none_within app]; intros H Hv Hs; [exact Hs|].
  apply andb_true_iff in H. destruct H as [H1 H2]. apply negb_true_iff in H1.
  cbn [str_in] in Hs. apply orb_true_iff in Hs. destruct Hs as [Hs|Hs].
  - assert (X : existsb (fun w => prefixb (Healer.placeholder w) (c :: t ++ rest)) vars
                = true) by (apply existsb_exists; now exists v).
    congruence.
  - now apply IH.
Qed.

Lemma occurs_written (vars : list str) (segs : list (str * str)) (last v : str) :
  marked_only vars segs last = true ->
  In v vars ->
  str_in (Healer.placeholder v) (keys_text segs last) = true ->
  In v (map snd segs).
Proof.
  induction segs as [|[t w] segs IH]; intros Hm Hv Hs.
  - cbn [marked_only keys_text] in *. rewrite <- (app_nil_r last) in Hs.
    apply (@none_within_occurs vars last [] v Hm Hv) in Hs. discriminate Hs.
  - apply marked_only_cons in Hm. destruct Hm as [H1 [H2 [H3 [H4 H5]]]].
    cbn [keys_text] in Hs. cbn [map snd In].
    apply (@none_within_occurs vars t _ v H1 Hv) in Hs.
    apply (proj1 (forallb_forall _ _) H3) in Hv as H3v.
    change (Healer.placeholder w ++ keys_text segs last)
      with (lbrace :: tl (Healer.placeholder w) ++ keys_text segs last) in Hs, H3v.
    cbn [str_in] in Hs. apply orb_true_iff in Hs. destruct Hs as [Hs|Hs].
    + rewrite Hs in H3v. cbn [implb] in H3v. apply str_eqb_eq in H3v. now left.
    + right. apply IH; [exact H5|exact Hv|].
      now apply (@none_within_occurs vars (tl (Healer.placeholder w)) _ v H4 Hv).
Qed.

(** *** The pipe on a text whose placeholders are written out *)

Section HealMarked.
Import Healer.
Variable uuid4 : nat -> N.
Variable vars : list str.
Hypothesis vars_set : NoDup vars.

Local Abbreviation d := (var_to_uuid uuid4 vars).

Lemma escape_tokens_text (segs : list (str * str)) (last : str) :
  Forall (fun tv => In (snd tv) vars) segs ->
  forall prev,
    (forall c, is_brace c = true -> is_char c prev = false) ->
    escape_spec_from prev (tokens_text d segs last)
    = tokens_text d (map_texts escape segs) (escape last).
Proof.
  induction 1 as [|[t v] segs Hv _ IH]; intros prev Hp;
    rewrite ?map_texts_cons; cbn [tokens_text].
  - rewrite escape_as_one_pass. apply escape_spec_from_prev. intros c _ B. now apply Hp.
  - destruct (@token_is_hex uuid4 vars vars_set v Hv) as [c0 [r [E Hhex]]].
    rewrite E.
    assert (Hc0 : is_brace c0 = false).
    { cbn [forallb] in Hhex. apply andb_true_iff in Hhex. destruct Hhex as [H0 _].
      apply hex_plain_char in H0. unfold plain_char in H0.
      apply andb_true_iff in H0. now apply negb_true_iff. }
    rewrite escape_spec_from_app
      by (intros c Hc B; cbn in Hc; injection Hc as <-; congruence).
    rewrite (@escape_spec_from_prev prev t) by (intros c _ B; now apply Hp).
    rewrite <- escape_as_one_pass. f_equal.
    rewrite escape_spec_from_app_plain by now apply plain_no_brace, hex_str_plain.
    f_equal. apply IH. intros c B.
    apply prev_after_text_not_brace; [exact B|now apply plain_no_brace, hex_str_plain].
Qed.

Lemma strip_tokens_text (segs : list (str * str)) (last : str) :
  Forall (fun tv => In (snd tv) vars) segs ->
  tags_spare d segs last = true ->
  strip_text (tokens_text d (map_texts escape segs) (escape last))
  = tokens_text d (map_texts heal_text segs) (heal_text last).
Proof.
  induction 1 as [|[t v] segs Hv _ IH]; intros H;
    rewrite ?map_texts_cons; cbn [tags_spare tokens_text] in *; [reflexivity|].
  apply andb_true_iff in H. destruct H as [H1 H2].
  destruct (@token_is_hex uuid4 vars vars_set v Hv) as [c0 [r [E Hhex]]].
  rewrite E in *.
  rewrite strip_text_app.
  - fold (heal_text t). f_equal.
    rewrite strip_text_copy_run; [f_equal; now apply IH|].
    intros c Hc. now apply (@plain_no_lt (c0 :: r) c (@hex_str_plain (c0 :: r) Hhex)).
  - intros c Hc. cbn in Hc. injection Hc as <-. apply hex_not_tag_char.
    cbn [forallb] in Hhex. now apply andb_true_iff in Hhex.
  - apply orb_true_iff in H1. destruct H1 as [H1|H1]; [now left|right].
    apply negb_true_iff in H1. rewrite mem_char_app, H1, orb_false_r.
    apply hex_str_without; [reflexivity|exact Hhex].
Qed.

(** The pipe keeps every written placeholder and heals the text in
    between. *)
Lemma pipe_on_marked (segs : list (str * str)) (last : str) :
  vars <> [] ->
  NoDup (tokens uuid4 vars) ->
  marked_only vars segs last = true ->
  tags_spare d segs last = true ->
  copied_clean d (seg_pieces (map_texts heal_text segs) (heal_text last)) = true ->
  (forall v, In v vars -> str_in (placeholder v) (keys_text segs last) = true) ->
  _get_var_healer uuid4 (VarSet vars) true (keys_text segs last)
  = Ok (keys_text (map_texts heal_text segs) (heal_text last)).
Proof.
  intros Hne Htok Hm Htags Hclean Hall.
  pose proof (@marked_known vars segs last Hm) as Hknown.
  rewrite healer_is_pipe by exact Hne. unfold pipe.
  rewrite assert_all_required_present by exact Hall. cbn [bind].
  rewrite mask_marked by assumption. cbn [bind].
  rewrite strip_to_optimize_text. cbn [bind].
  rewrite escape_as_one_pass, escape_tokens_text by (assumption || reflexivity).
  rewrite strip_tokens_text by assumption.
  apply unmask_tokens_text; try assumption.
  now apply map_texts_known.
Qed.

(** Every variable that occurs in the input is written, and is in the
    output. *)
Lemma required_survive (segs : list (str * str)) (last : str) (v : str) :
  marked_only vars segs last = true ->
  In v vars ->
  str_in (placeholder v) (keys_text segs last) = true ->
  str_in (placeholder v) (keys_text (map_texts heal_text segs) (heal_text last)) = true.
Proof.
  intros Hm Hv Hs. apply written_occurs.
  unfold map_texts. rewrite map_map. cbn [snd].
  now apply (@occurs_written vars segs last v).
Qed.
End HealMarked.

(** A stray placeholder in a stretch of text. *)
Lemma escape_stray (a bar b : str) :
  no_brace bar = true ->
  is_char lbrace (prev_after None a) = false ->
  is_char rbrace (hd_error b) = false ->
  escape (a ++ Healer.placeholder bar ++ b)
  = escape a ++ (lbrace :: Healer.placeholder bar ++ [rbrace]) ++ escape b.
Proof.
  intros Hbar Ha Hb. rewrite !escape_as_one_pass.
  rewrite escape_spec_from_app.
  2:{ intros c Hc B. cbn in Hc. injection Hc as <-. exact Ha. }
  rewrite escape_spec_from_stray by assumption.
  rewrite (@escape_spec_from_prev (Some rbrace) b); [reflexivity|].
  intros c Hc B. rewrite Hc in Hb. cbn [is_char] in *. now rewrite Ascii.eqb_sym.
Qed.

Lemma heal_text_stray (a bar b : str) :
  no_brace bar = true ->
  mem_char "<"%char bar = false ->
  is_char lbrace (prev_after None a) = false ->
  is_char rbrace (hd_error b) = false ->
  tags_closed (escape a) || negb (mem_char ">"%char (bar ++ escape b)) = true ->
  heal_text (a ++ Healer.placeholder bar ++ b)
  = heal_text a ++ (lbrace :: Healer.placeholder bar ++ [rbrace]) ++ heal_text b.
Proof.
  intros Hbar Hlt Ha Hb Htags. unfold heal_text.
  rewrite escape_stray by assumption.
  rewrite strip_text_app.
  - f_equal. apply strip_text_copy_run.
    intros c Hc. unfold Healer.placeholder in Hc.
    destruct Hc as [<-|[<-|Hc]]; try reflexivity.
    rewrite <- app_assoc in Hc. apply in_app_or in Hc.
    destruct Hc as [Hc|[<-|[<-|[]]]]; try reflexivity.
    now apply (mem_char_false "<"%char bar).
  - intros c Hc. cbn in Hc. injection Hc as <-. split; reflexivity.
  - apply orb_true_iff in Htags. destruct Htags as [H|H]; [now left|right].
    apply negb_true_iff in H. rewrite mem_char_app in H. apply orb_false_iff in H.
    destruct H as [H1 H2]. unfold Healer.placeholder.
    rewrite mem_char_app, H2, orb_false_r. unfold mem_char in *. cbn [existsb app].
    rewrite !existsb_app, H1. reflexivity.
Qed.

Lemma heal_text_plain (t : str) : plain t = true -> heal_text t = t.
Proof.
  intros H. unfold heal_text.
  rewrite escape_as_one_pass.
  rewrite <- (app_nil_r t) at 1.
  rewrite escape_spec_from_app_plain by now apply plain_no_brace.
  cbn [escape_spec_from]. rewrite strip_text_copy_run; [apply app_nil_r|].
  intros c Hc. now apply (plain_no_lt t).
Qed.

Lemma hello_name_pipe (uuid4 : nat -> N) :
  Healer._get_var_healer uuid4 (Healer.VarSet [lit "name"]) true
    (lit "<TO_OPTIMIZE note='x'>hello {name}</TO_OPTIMIZE>")
  = Ok (lit "hello {name}").
Proof.
  assert (Hset : NoDup [lit "name"]) by nodup_strs.
  assert (E1 : heal_text (lit "<TO_OPTIMIZE note='x'>hello ") = lit "hello ")
    by (vm_compute; reflexivity).
  assert (E2 : heal_text (lit "</TO_OPTIMIZE>") = []) by (vm_compute; reflexivity).
  refine (eq_trans
            (@pipe_on_marked uuid4 [lit "name"] Hset
               [(lit "<TO_OPTIMIZE note='x'>hello ", lit "name")] (lit "</TO_OPTIMIZE>")
               _ _ _ _ _ _) _).
  - discriminate.
  - cbn. constructor; [intros []|constructor].
  - vm_compute. reflexivity.
  - cbn [tags_spare].
    assert (E : tags_closed (escape (lit "<TO_OPTIMIZE note='x'>hello ")) = true)
      by (vm_compute; reflexivity).
    rewrite E. reflexivity.
  - unfold map_texts. cbn [map fst snd]. rewrite E1, E2.
    destruct (uuid_hex_cons2 (uuid4 0)) as [c0 [c1 [r [E [H0 H1]]]]].
    change (Healer.var_to_uuid uuid4 [lit "name"])
      with [(Healer.placeholder (lit "name"), uuid_hex (uuid4 0))].
    rewrite E.
    cbn [seg_pieces map app lit list_ascii_of_string
         copied_clean masked_text flat_map dict_values snd existsb prefixb lookup dict_get].
    rewrite (@hex_neq c0 "h"%char H0), (@hex_neq c0 "l"%char H0),
      (@hex_neq c0 "o"%char H0), (@hex_neq c0 " "%char H0), (@hex_neq c1 "l"%char H1)
      by reflexivity.
    cbn [andb]. rewrite andb_false_r. reflexivity.
  - intros v [<-|[]]. reflexivity.
  - unfold map_texts. cbn [map fst snd keys_text]. rewrite E1, E2. reflexivity.
Qed.

(** ** Masking and unmasking, the claim *)




(** ** The pipe, the claim *)

(** C2, as amended.  Write the input as text around its required
    placeholders, [t1 {v1} ... tn {vn} last], these being all the
    occurrences of required placeholders (every string can be written so
    when no required name holds a brace).  When every required variable
    appears, the pipe returns [T(t1) {v1} ... T(tn) {vn} T(last)]: every
    required placeholder as it is, single braces intact, and every stretch
    of text escaped and without the tags, [T] being [heal_text]; so every
    required placeholder is in the output.  This needs that no opening tag
    begun before a required placeholder ends after it, that the tokens are
    pairwise distinct and that no token occurs before unmasking at a
    character of the text.  In a stretch of text a stray placeholder
    [{bar}], [bar] without brace or [<], not next to another brace and not
    in an open tag, comes out as [{{bar}}], and text without braces and
    [<] comes out as it is.  With an empty required set the healer is
    [escape], which doubles the braces of a stray placeholder in the same
    way.  And ["<TO_OPTIMIZE note='x'>hello {name}</TO_OPTIMIZE>"] with the
    required set [{name}] pipes to ["hello {name}"], whatever the token. *)
Theorem pipe_keeps_required_doubles_stray :
  (forall (uuid4 : nat -> N) (vars : list str) (segs : list (str * str)) (last : str),
     vars <> [] ->
     NoDup vars ->
     NoDup (Healer.tokens uuid4 vars) ->
     let d := Healer.var_to_uuid uuid4 vars in
     let output := keys_text (map_texts heal_text segs) (heal_text last) in
     marked_only vars segs last = true ->
     tags_spare d segs last = true ->
     copied_clean d (seg_pieces (map_texts heal_text segs) (heal_text last)) = true ->
     (forall v, In v vars -> str_in (Healer.placeholder v) (keys_text segs last) = true) ->
     Healer._get_var_healer uuid4 (Healer.VarSet vars) true (keys_text segs last)
     = Ok output
     /\ forall v, In v vars -> str_in (Healer.placeholder v) output = true)
  /\ (forall vars : list str,
        NoDup vars ->
        forallb no_brace vars = true ->
        forall s,
        exists segs last, s = keys_text segs last /\ marked_only vars segs last = true)
  /\ (forall a bar b : str,
        no_brace bar = true ->
        mem_char "<"%char bar = false ->
        is_char lbrace (prev_after None a) = false ->
        is_char rbrace (hd_error b) = false ->
        tags_closed (escape a) || negb (mem_char ">"%char (bar ++ escape b)) = true ->
        heal_text (a ++ Healer.placeholder bar ++ b)
        = heal_text a ++ (lbrace :: Healer.placeholder bar ++ [rbrace]) ++ heal_text b)
  /\ (forall t : str, plain t = true -> heal_text t = t)
  /\ (forall (uuid4 : nat -> N) (s : str),
        Healer._get_var_healer uuid4 (Healer.VarSet []) true s = Ok (escape s))
  /\ (forall a bar b : str,
        no_brace bar = true ->
        is_char lbrace (prev_after None a) = false ->
        is_char rbrace (hd_error b) = false ->
        escape (a ++ Healer.placeholder bar ++ b)
        = escape a ++ (lbrace :: Healer.placeholder bar ++ [rbrace]) ++ escape b)
  /\ (forall uuid4 : nat -> N,
        Healer._get_var_healer uuid4 (Healer.VarSet [lit "name"]) true
          (lit "<TO_OPTIMIZE note='x'>hello {name}</TO_OPTIMIZE>")
        = Ok (lit "hello {name}")).
Proof.
  split; [|split; [|split; [|split; [|split; [|split]]]]].
  - intros uuid4 vars segs last Hne Hset Htok d output Hm Htags Hclean Hall. split.
    + now apply pipe_on_marked.
    + intros v Hv. exact (@required_survive vars segs last v Hm Hv (Hall v Hv)).
  - intros vars Hset Hnb s. now apply (@marked_exists (fun _ => 0%N) vars Hset s Hnb).
  - exact heal_text_stray.
  - exact heal_text_plain.
  - reflexivity.
  - exact escape_stray.
  - exact hello_name_pipe.
Qed.

Lemma pipe_keeps_required_doubles_stray_witness :
  Healer._get_var_healer uuid4_sample (Healer.VarSet [lit "name"; lit "topic"]) true
    (lit "<b>Dear {name}</b>, if x < 3 use {bar} and {{lit}} on {topic}.</TO_OPTIMIZE>")
  = Ok (lit "<b>Dear {name}</b>, if x < 3 use {{bar}} and {{lit}} on {topic}.")
  /\ Healer._get_var_healer uuid4_sample (Healer.VarSet [lit "name"]) true
       (lit "<TO_OPTIMIZE {name} hello")
     = Ok (lit "<TO_OPTIMIZE {name} hello")
  /\ heal_text (lit "if x < 3 use {bar} and {{lit}}")
     = heal_text (lit "if x < 3 use ") ++ lit "{{bar}}" ++ heal_text (lit " and {{lit}}").
Proof.
  split; [|split].
  - refine (eq_trans
              (proj1 (proj1 pipe_keeps_required_doubles_stray uuid4_sample
                        [lit "name"; lit "topic"]
                        [(lit "<b>Dear ", lit "name");
                         (lit "</b>, if x < 3 use {bar} and {{lit}} on ", lit "topic")]
                        (lit ".</TO_OPTIMIZE>") _ _ _ _ _ _ _)) _).
    + discriminate.
    + nodup_strs.
    + vm_compute. nodup_strs.
    + vm_compute. reflexivity.
    + vm_compute. reflexivity.
    + vm_compute. reflexivity.
    + intros v [<-|[<-|[]]]; vm_compute; reflexivity.
    + vm_compute. reflexivity.
  - refine (eq_trans
              (proj1 (proj1 pipe_keeps_required_doubles_stray uuid4_sample
                        [lit "name"] [(lit "<TO_OPTIMIZE ", lit "name")] (lit " hello")
                        _ _ _ _ _ _ _)) _).
    + discriminate.
    + nodup_strs.
    + vm_compute. nodup_strs.
    + vm_compute. reflexivity.
    + vm_compute. reflexivity.
    + vm_compute. reflexivity.
    + intros v [<-|[]]; vm_compute; reflexivity.
    + vm_compute. reflexivity.
  - apply (proj1 (proj2 (proj2 pipe_keeps_required_doubles_stray))
             (lit "if x < 3 use ") (lit "bar") (lit " and {{lit}}"));
      vm_compute; reflexivity.
Defined.

(** C2 as stated fails.  The first input holds the required placeholder
    inside the attribute text of an opening tag; the pipe masks it and then
    removes it with the tag, so it does not survive.  With two variables
    that draw the same token both placeholders come back as the one that
    the set yields last.  A token that begins in the text and runs into an
    inserted token is unmasked there, which moves the placeholder.  With
    the required variables [a] and [a}{b], in this order, ["{a}{b}"] holds
    both placeholders and comes out as ["{a}{{b}}"], without the second.
    And a stray placeholder between doubled braces, ["{{{bar}}}"], is left
    as it is. *)
Lemma placeholder_in_tag_is_removed :
  (let vars := [lit "name"] in
   let s := lit "<TO_OPTIMIZE {name}>hello" in
   (forall v, In v vars -> str_in (Healer.placeholder v) s = true)
   /\ Healer._get_var_healer uuid4_sample (Healer.VarSet vars) true s = Ok (lit "hello")
   /\ str_in (Healer.placeholder (lit "name")) (lit "hello") = false
   /\ ~ (forall input,
           (forall v, In v vars -> str_in (Healer.placeholder v) input = true) ->
           exists output,
             Healer._get_var_healer uuid4_sample (Healer.VarSet vars) true input = Ok output
             /\ forall v, In v vars -> str_in (Healer.placeholder v) output = true))
  /\ Healer._get_var_healer uuid4_periodic (Healer.VarSet [lit "a"; lit "b"]) true
       (lit "{a} and {b}")
     = Ok (lit "{b} and {b}")
  /\ Healer._get_var_healer uuid4_periodic (Healer.VarSet [lit "x"]) true (lit "4a0{x}")
     = Ok (lit "{x}04a")
  /\ Healer._get_var_healer uuid4_sample (Healer.VarSet [lit "a"; lit "a}{b"]) true
       (lit "{a}{b}")
     = Ok (lit "{a}{{b}}")
  /\ Healer._get_var_healer uuid4_sample (Healer.VarSet [lit "name"]) true
       (lit "{name} {{{bar}}}")
     = Ok (lit "{name} {{{bar}}}").
Proof.
  split; [|repeat split; vm_compute; reflexivity].
  intros vars s.
  assert (Hin : forall v, In v vars -> str_in (Healer.placeholder v) s = true)
    by (intros v [<-|[]]; vm_compute; reflexivity).
  assert (Hrun : Healer._get_var_healer uuid4_sample (Healer.VarSet vars) true s
                 = Ok (lit "hello")) by (vm_compute; reflexivity).
  split; [exact Hin|]. split; [exact Hrun|]. split; [vm_compute; reflexivity|].
  intros H. destruct (H s Hin) as [output [Hout Hkeep]].
  assert (output = lit "hello") by congruence. subst output.
  specialize (Hkeep (lit "name") (or_introl eq_refl)). vm_compute in Hkeep.
  discriminate Hkeep.
Qed.

(** * Further properties of the code *)

(** ** [escape] *)

Lemma lone_free_nth (b : ascii) (s : str) :
  forall prev i,
    lone_free b prev s = true ->
    nth_error s i = Some b ->
    (i = 0 /\ is_char b prev = true)
    \/ (exists j, i = S j /\ nth_error s j = Some b)
    \/ nth_error s (S i) = Some b.
Proof.
  induction s as [|c s IH]; intros prev i H Hi; [now destruct i|].
  cbn [lone_free] in H. apply andb_true_iff in H. destruct H as [Hc Hs].
  destruct i as [|i].
  - cbn in Hi. injection Hi as ->. rewrite ascii_eqb_refl in Hc. cbn [negb orb] in Hc.
    destruct (is_char b prev); [now left|]. cbn [orb] in Hc.
    right. right. destruct s as [|x s]; [discriminate|].
    cbn in Hc. apply Ascii.eqb_eq in Hc. now subst x.
  - cbn [nth_error] in Hi. destruct (IH _ _ Hs Hi) as [[-> Hp]|[[j [-> Hj]]|Hn]].
    + right. left. exists 0. split; [reflexivity|].
      cbn in Hp. apply Ascii.eqb_eq in Hp. now subst c.
    + right. left. exists (S j). now split.
    + right. right. exact Hn.
Qed.

(** X1: in the output of [escape] no brace stands alone: every brace has
    an equal brace right before it or right after it. *)
Theorem escape_output_braces_paired (s : str) (i : nat) (b : ascii) :
  is_brace b = true ->
  nth_error (escape s) i = Some b ->
  (exists j, i = S j /\ nth_error (escape s) j = Some b)
  \/ nth_error (escape s) (S i) = Some b.
Proof.
  intros Hb Hi. destruct (escape_lone_free s) as [Hl Hr].
  assert (Hfree : lone_free b None (escape s) = true).
  { unfold is_brace in Hb. apply orb_true_iff in Hb.
    destruct Hb as [E|E]; apply Ascii.eqb_eq in E; now subst b. }
  destruct (@lone_free_nth b (escape s) None i Hfree Hi) as [[_ H]|H];
    [discriminate|exact H].
Qed.

Lemma escape_output_braces_paired_witness :
  (exists j, 1 = S j /\ nth_error (escape (lit "a{b")) j = Some lbrace)
  \/ nth_error (escape (lit "a{b")) 2 = Some lbrace.
Proof.
  apply (@escape_output_braces_paired (lit "a{b") 1 lbrace); reflexivity.
Defined.

Lemma sub_lone_from_filter (p : ascii -> bool) (b : ascii) (s : str) :
  p b = false ->
  forall prev, filter p (sub_lone_from b prev s) = filter p s.
Proof.
  intros Hp. induction s as [|c s IH]; intros prev; cbn [sub_lone_from]; [reflexivity|].
  destruct (Ascii.eqb c b && negb (is_char b prev) && negb (is_char b (hd_error s))) eqn:E.
  - apply andb_true_iff in E. destruct E as [E _].
    apply andb_true_iff in E. destruct E as [E _]. apply Ascii.eqb_eq in E. subst c.
    cbn [filter]. rewrite Hp. apply IH.
  - cbn [filter]. now rewrite IH.
Qed.

Lemma sub_lone_from_length (b : ascii) (s : str) :
  forall prev,
    List.length s <= List.length (sub_lone_from b prev s)
    /\ List.length (sub_lone_from b prev s)
       <= List.length s + List.length (filter (fun c => Ascii.eqb c b) s).
Proof.
  induction s as [|c s IH]; intros prev; cbn [sub_lone_from]; [cbn; lia|].
  specialize (IH (Some c)).
  destruct (Ascii.eqb c b && negb (is_char b prev) && negb (is_char b (hd_error s))) eqn:E.
  - apply andb_true_iff in E. destruct E as [E _].
    apply andb_true_iff in E. destruct E as [E _].
    cbn [filter List.length]. rewrite E. cbn [List.length]. lia.
  - cbn [filter List.length]. destruct (Ascii.eqb c b); cbn [List.length]; lia.
Qed.

Lemma braces_count (s : str) :
  List.length (filter (fun c => Ascii.eqb c lbrace) s)
  + List.length (filter (fun c => Ascii.eqb c rbrace) s)
  = List.length (filter is_brace s).
Proof.
  induction s as [|c s IH]; [reflexivity|]. cbn [filter]. unfold is_brace at 1.
  destruct (Ascii.eqb c lbrace) eqn:El.
  - apply Ascii.eqb_eq in El. subst c. change (Ascii.eqb lbrace rbrace) with false.
    cbn [orb List.length]. lia.
  - cbn [orb]. destruct (Ascii.eqb c rbrace); cbn [List.length]; lia.
Qed.

(** X2: [escape] only adds braces: the characters that are not braces come
    out the same and in the same order, and the output has at least the
    length of the input and at most that length plus the number of braces
    of the input. *)
Theorem escape_only_adds_braces (s : str) :
  filter (fun c => negb (is_brace c)) (escape s) = filter (fun c => negb (is_brace c)) s
  /\ List.length s <= List.length (escape s)
  /\ List.length (escape s) <= List.length s + List.length (filter is_brace s).
Proof.
  unfold escape, sub_lone. split; [|split].
  - rewrite !sub_lone_from_filter; reflexivity.
  - pose proof (proj1 (sub_lone_from_length lbrace s None)).
    pose proof (proj1 (sub_lone_from_length rbrace (sub_lone_from lbrace None s) None)).
    lia.
  - pose proof (proj2 (sub_lone_from_length lbrace s None)) as H1.
    pose proof (proj2 (sub_lone_from_length rbrace (sub_lone_from lbrace None s) None)) as H2.
    rewrite (@sub_lone_from_filter (fun c => Ascii.eqb c rbrace) lbrace s eq_refl None) in H2.
    rewrite <- braces_count. lia.
Qed.

(** ** The healer without the requirement, and text that is foreign to it *)

Lemma healer_never_raises_on (uuid4 : nat -> N) (vars : list str) (s : str) :
  exists r, Healer.healer uuid4 vars false s = Ok r.
Proof.
  unfold Healer.healer. destruct vars as [|v vs] eqn:E; [now eexists|].
  rewrite <- E. unfold Healer.pipe, Healer.assert_all_required. cbn [negb bind].
  destruct (mask_total uuid4 vars s) as [masked ->]. cbn [bind].
  rewrite strip_to_optimize_text. cbn [bind]. apply unmask_total.
Qed.

(** X3: without [all_required] the healer never raises, whatever the
    variables and the input: the lookups of [mask] and [unmask] always
    find their key. *)
Theorem healer_without_requirement_never_raises
    (uuid4 : nat -> N) (vars : Healer.vars_arg) (s : str) :
  exists r, Healer._get_var_healer uuid4 vars false s = Ok r.
Proof.
  unfold Healer._get_var_healer. destruct vars; apply healer_never_raises_on.
Qed.

Section DictValues.
Variables K V : Type.
Variable eqb : K -> K -> bool.

Lemma dict_set_values (k : K) (v : V) (d : dict K V) (v0 : V) :
  In v0 (dict_values (dict_set eqb k v d)) -> v0 = v \/ In v0 (dict_values d).
Proof.
  induction d as [|[k' v'] d IH]; cbn; [intuition congruence|].
  destruct (eqb k k'); cbn; intuition congruence.
Qed.

Lemma dict_of_values (items : list (K * V)) (v0 : V) :
  In v0 (dict_values (dict_of eqb items)) -> In v0 (map snd items).
Proof.
  unfold dict_of.
  assert (H : forall d, In v0 (dict_values
                                 (fold_left (fun d kv => dict_set eqb (fst kv) (snd kv) d)
                                            items d)) ->
                        In v0 (dict_values d) \/ In v0 (map snd items)).
  { induction items as [|[k v] items IH]; intros d0 Hin; cbn in *; [now left|].
    apply IH in Hin. destruct Hin as [Hin|Hin]; [|tauto].
    apply dict_set_values in Hin. intuition congruence. }
  intros Hin. apply H in Hin. destruct Hin as [[]|Hin]. exact Hin.
Qed.
End DictValues.

Section ForeignText.
Import Healer.
Variable uuid4 : nat -> N.
Variable vars : list str.

Lemma any_key_is_placeholder (a : str) :
  In a (dict_keys (var_to_uuid uuid4 vars)) -> exists v, a = placeholder v.
Proof.
  unfold var_to_uuid. rewrite (@dict_of_keys _ _ _ str_eqb_eq).
  intros H. apply in_map_iff in H. destruct H as [[k t] [<- Hin]].
  apply in_combine_l in Hin. apply in_map_iff in Hin. destruct Hin as [v [<- _]].
  now exists v.
Qed.

Lemma any_value_is_token (t : str) :
  In t (dict_values (var_to_uuid uuid4 vars)) -> exists u, t = uuid_hex u.
Proof.
  intros H. apply dict_of_values in H. apply in_map_iff in H.
  destruct H as [[k t'] [<- Hin]]. apply in_combine_r in Hin.
  unfold tokens in Hin. apply in_map_iff in Hin. destruct Hin as [n [<- _]].
  now eexists.
Qed.

Lemma mask_pattern_needs_lbrace (c : ascii) (s : str) :
  Ascii.eqb c lbrace = false -> mask_pattern uuid4 vars (c :: s) = None.
Proof.
  intros Hc. unfold mask_pattern, alt_match.
  destruct (find (fun a => prefixb a (c :: s)) (dict_keys (var_to_uuid uuid4 vars)))
    as [a|] eqn:E; [|reflexivity].
  apply find_some in E. destruct E as [Ha Hp].
  apply any_key_is_placeholder in Ha. destruct Ha as [v ->].
  unfold placeholder in Hp. cbn [prefixb] in Hp.
  rewrite Ascii.eqb_sym, Hc in Hp. discriminate.
Qed.

Lemma unmask_pattern_needs_hex (c : ascii) (s : str) :
  is_hex c = false -> unmask_pattern uuid4 vars (c :: s) = None.
Proof.
  intros Hc. unfold unmask_pattern, alt_match.
  destruct (find (fun a => prefixb a (c :: s)) (dict_values (var_to_uuid uuid4 vars)))
    as [a|] eqn:E; [|reflexivity].
  apply find_some in E. destruct E as [Ha Hp].
  apply any_value_is_token in Ha. destruct Ha as [u ->].
  destruct (uuid_hex_cons2 u) as [c0 [c1 [r [Eu [H0 _]]]]]. rewrite Eu in Hp.
  cbn [prefixb] in Hp. rewrite (@hex_neq c0 c H0 Hc) in Hp. discriminate.
Qed.
End ForeignText.

Lemma re_sub_all_copied (match_at : str -> option nat) (repl : str -> result str) (s : str) :
  (forall c r, In c s -> match_at (c :: r) = None) -> re_sub match_at repl s = Ok s.
Proof.
  intros H. rewrite <- (app_nil_r s) at 1.
  rewrite re_sub_copy_run by exact H. cbn. now rewrite app_nil_r.
Qed.

(** X4: [mask] returns a text without an opening brace as it is, and
    [unmask] returns a text without a hexadecimal digit as it is: a
    placeholder begins with a brace and a token is made of hexadecimal
    digits. *)
Theorem mask_and_unmask_keep_foreign_text (uuid4 : nat -> N) (vars : list str) (s : str) :
  (mem_char lbrace s = false -> Healer.mask uuid4 vars s = Ok s)
  /\ (forallb (fun c => negb (is_hex c)) s = true -> Healer.unmask uuid4 vars s = Ok s).
Proof.
  split; intros H.
  - apply re_sub_all_copied. intros c r Hc. apply mask_pattern_needs_lbrace.
    now apply (mem_char_false lbrace s).
  - apply re_sub_all_copied. intros c r Hc. apply unmask_pattern_needs_hex.
    apply negb_true_iff. now apply (proj1 (forallb_forall _ _) H).
Qed.

Lemma mask_and_unmask_keep_foreign_text_witness :
  Healer.mask uuid4_sample [lit "name"] (lit "no placeholders }") = Ok (lit "no placeholders }")
  /\ Healer.unmask uuid4_sample [lit "name"] (lit "{x}, only this") = Ok (lit "{x}, only this").
Proof.
  split.
  - apply (proj1 (mask_and_unmask_keep_foreign_text uuid4_sample [lit "name"]
                    (lit "no placeholders }"))). reflexivity.
  - apply (proj2 (mask_and_unmask_keep_foreign_text uuid4_sample [lit "name"]
                    (lit "{x}, only this"))). reflexivity.
Defined.

(** ** The removal of the tags *)

Lemma copied_text_length (ps : list piece) :
  List.length (copied_text ps) <= List.length (flat_map piece_text ps).
Proof.
  unfold copied_text.
  induction ps as [|[c|m] ps IH]; cbn [flat_map piece_text app List.length]; [lia|lia|].
  rewrite length_app. lia.
Qed.

(** X5: the removal of the tags never raises and never lengthens the text;
    a text without [<] comes back as it is; and an opening tag that no [>]
    follows is kept: the pattern needs the closing [>]. *)
Theorem strip_to_optimize_edges (s : str) :
  (exists r, Healer.strip_to_optimize s = Ok r /\ List.length r <= List.length s)
  /\ (mem_char "<"%char s = false -> Healer.strip_to_optimize s = Ok s)
  /\ (mem_char ">"%char s = false -> mem_char "<"%char s = false ->
      Healer.strip_to_optimize (open_tag ++ s) = Ok (open_tag ++ s)).
Proof.
  split; [|split].
  - exists (strip_text s). split; [apply strip_to_optimize_text|].
    unfold strip_text. etransitivity; [apply copied_text_length|].
    unfold re_pieces. rewrite re_pieces_from_text; [cbn; lia| |cbn; lia].
    exact to_optimize_match_le.
  - intros H. apply re_sub_all_copied. intros c r Hc.
    apply to_optimize_match_other. now apply (mem_char_false "<"%char s).
  - intros Hgt Hlt. rewrite strip_to_optimize_text. f_equal.
    assert (Hopen : open_tag = "<"%char :: lit "TO_OPTIMIZE") by reflexivity.
    assert (Hnone : to_optimize_match (open_tag ++ s) = None).
    { unfold to_optimize_match.
      rewrite strip_prefix_app, index_char_none by exact Hgt. reflexivity. }
    rewrite Hopen in *. cbn [app] in *. rewrite strip_text_copy by exact Hnone.
    f_equal. rewrite <- (app_nil_r (lit "TO_OPTIMIZE" ++ s)) at 1.
    rewrite strip_text_copy_run; [apply app_nil_r|].
    intros c Hc. apply in_app_or in Hc. destruct Hc as [Hc|Hc].
    + now repeat (destruct Hc as [<-|Hc]; [reflexivity|]).
    + now apply (mem_char_false "<"%char s).
Qed.

Lemma strip_to_optimize_edges_witness :
  Healer.strip_to_optimize (lit "a > b") = Ok (lit "a > b")
  /\ Healer.strip_to_optimize (open_tag ++ lit " never closed") = Ok (open_tag ++ lit " never closed").
Proof.
  split.
  - apply (proj1 (proj2 (strip_to_optimize_edges (lit "a > b")))). reflexivity.
  - apply (proj2 (proj2 (strip_to_optimize_edges (lit " never closed")))); reflexivity.
Defined.

(** ** The two dictionaries of the healer *)

(** X6: for a set of variables with pairwise distinct tokens,
    [uuid_to_var] is the inverse of [var_to_uuid]: a placeholder maps to a
    token exactly when that token maps back to the placeholder, and every
    variable has its entry. *)
Theorem uuid_to_var_inverts_var_to_uuid (uuid4 : nat -> N) (vars : list str) :
  NoDup vars ->
  NoDup (Healer.tokens uuid4 vars) ->
  (forall k t,
     dict_get str_eqb k (Healer.var_to_uuid uuid4 vars) = Some t
     <-> dict_get str_eqb t (Healer.uuid_to_var uuid4 vars) = Some k)
  /\ (forall v, In v vars ->
                exists t, dict_get str_eqb (Healer.placeholder v)
                            (Healer.var_to_uuid uuid4 vars) = Some t).
Proof.
  intros Hvars Htok.
  assert (Hvals : NoDup (dict_values (Healer.var_to_uuid uuid4 vars)))
    by now rewrite var_to_uuid_values.
  assert (Hkeys : NoDup (dict_keys (Healer.var_to_uuid uuid4 vars))).
  { rewrite var_to_uuid_keys by exact Hvars.
    apply NoDup_map_inj; [exact placeholder_inj|exact Hvars]. }
  split.
  - intros k t. split.
    + intros H. apply dict_get_in in H. unfold Healer.uuid_to_var.
      now apply inverse_get.
    + intros H. unfold Healer.uuid_to_var in H.
      assert (Hfst : map fst (map (fun kv : str * str => (snd kv, fst kv))
                                  (Healer.var_to_uuid uuid4 vars))
                     = dict_values (Healer.var_to_uuid uuid4 vars)).
      { unfold dict_values. now rewrite map_map. }
      rewrite (@dict_of_nodup _ _ _ str_eqb_eq) in H by now rewrite Hfst.
      apply dict_get_in in H. apply in_map_iff in H. destruct H as [[k' t'] [E Hin]].
      cbn in E. injection E as -> ->.
      now apply (@dict_get_nodup _ _ _ str_eqb_eq).
  - intros v Hv. apply (@dict_get_in_keys _ _ _ str_eqb_eq).
    rewrite var_to_uuid_keys by exact Hvars. now apply in_map.
Qed.

Lemma uuid_to_var_inverts_var_to_uuid_witness :
  dict_get str_eqb (uuid_hex (uuid4_sample 1))
    (Healer.uuid_to_var uuid4_sample [lit "name"; lit "topic"])
  = Some (lit "{topic}").
Proof.
  apply (proj1 (@uuid_to_var_inverts_var_to_uuid uuid4_sample [lit "name"; lit "topic"]
                  ltac:(nodup_strs) ltac:(vm_compute; nodup_strs))).
  vm_compute. reflexivity.
Defined.

(** ** The variables of a template string *)

Lemma lazy_until_rbrace_spec (s : str) (k : nat) :
  lazy_until_rbrace s = Some k ->
  exists g rest, s = g ++ rbrace :: rest /\ List.length g = k
                 /\ mem_char newline g = false.
Proof.
  revert k. induction s as [|c s IH]; intros k; cbn [lazy_until_rbrace]; [discriminate|].
  destruct (Ascii.eqb c rbrace) eqn:Er.
  - apply Ascii.eqb_eq in Er. subst c. intros [= <-]. now exists [], s.
  - destruct (Ascii.eqb c newline) eqn:En; [discriminate|].
    destruct (lazy_until_rbrace s) as [n|]; [|discriminate].
    cbn [option_map]. intros [= <-].
    destruct (IH n eq_refl) as [g [rest [-> [Hlen Hnl]]]].
    exists (c :: g), rest. repeat split; [cbn; now rewrite Hlen|].
    unfold mem_char in *. cbn [existsb]. now rewrite (Ascii.eqb_sym newline c), En, Hnl.
Qed.

Lemma var_match_spec (t : str) (n : nat) :
  var_match t = Some n ->
  exists g, g <> [] /\ mem_char newline g = false
            /\ firstn n t = Healer.placeholder g /\ n <= List.length t.
Proof.
  unfold var_match. destruct t as [|c0 [|c1 s]]; try discriminate.
  destruct (Ascii.eqb c0 lbrace) eqn:E0; [|discriminate].
  destruct (Ascii.eqb c1 newline) eqn:E1; [discriminate|]. cbn [andb negb].
  destruct (lazy_until_rbrace s) as [k|] eqn:Ek; [|discriminate].
  cbn [option_map]. intros [= <-].
  apply lazy_until_rbrace_spec in Ek. destruct Ek as [g [rest [-> [Hlen Hnl]]]].
  apply Ascii.eqb_eq in E0. subst c0.
  exists (c1 :: g). split; [discriminate|]. split.
  - unfold mem_char in *. cbn [existsb].
    now rewrite (Ascii.eqb_sym newline c1), E1, Hnl.
  - replace (k + 3) with (S (S (List.length (g ++ [rbrace])))) by (rewrite length_app; cbn; lia).
    split.
    + unfold Healer.placeholder. cbn [firstn app]. do 2 f_equal.
      change (g ++ rbrace :: rest) with (g ++ [rbrace] ++ rest).
      rewrite app_assoc, firstn_app, firstn_all, Nat.sub_diag. cbn. apply app_nil_r.
    + cbn [List.length]. rewrite !length_app. cbn. lia.
Qed.

Lemma matched_is_substring (match_at : str -> option nat) (s m : str) :
  (forall t n, match_at t = Some n -> n <= List.length t) ->
  In (Matched m) (re_pieces match_at s) -> str_in m s = true.
Proof.
  intros Hle Hin. apply in_split in Hin. destruct Hin as [l1 [l2 E]].
  assert (Hs : flat_map piece_text (re_pieces match_at s) = s).
  { unfold re_pieces. rewrite re_pieces_from_text; [reflexivity|exact Hle|cbn; lia]. }
  rewrite E, flat_map_app in Hs. cbn [flat_map piece_text] in Hs.
  rewrite <- Hs. apply str_in_middle.
Qed.

Lemma template_vars_spec (template v : str) :
  In v (Healer.template_vars template) ->
  v <> [] /\ mem_char newline v = false
  /\ str_in (Healer.placeholder v) template = true.
Proof.
  unfold Healer.template_vars. rewrite nodup_In. unfold re_findall.
  rewrite in_flat_map. intros [[c|m] [Hin Hv]]; [destruct Hv|].
  destruct Hv as [<-|[]].
  assert (Hm : exists g, g <> [] /\ mem_char newline g = false /\ m = Healer.placeholder g).
  { pose proof (re_pieces_from_matched var_match
                  (fun m => exists g, g <> [] /\ mem_char newline g = false
                                      /\ m = Healer.placeholder g)) as H.
    assert (HP : forall t n, var_match t = Some n ->
                   exists g, g <> [] /\ mem_char newline g = false
                             /\ firstn n t = Healer.placeholder g).
    { intros t n Ht. apply var_match_spec in Ht. destruct Ht as [g [H1 [H2 [H3 _]]]].
      now exists g. }
    specialize (H HP 0 template).
    apply (proj1 (Forall_forall _ _) H) in Hin. exact Hin. }
  destruct Hm as [g [Hne [Hnl ->]]].
  assert (Hg : removelast (tl (Healer.placeholder g)) = g).
  { unfold Healer.placeholder. cbn [tl]. apply removelast_last. }
  rewrite Hg. split; [exact Hne|]. split; [exact Hnl|].
  apply (matched_is_substring var_match); [|exact Hin].
  intros t n Ht. now apply var_match_spec in Ht as [g' [_ [_ [_ H]]]].
Qed.

(** X7: every variable name that the scan of a template string finds is
    not empty, holds no newline, and its placeholder occurs verbatim in the
    template; and no name is listed twice. *)
Theorem template_vars_occur (template : str) :
  NoDup (Healer.template_vars template)
  /\ forall v, In v (Healer.template_vars template) ->
               v <> [] /\ mem_char newline v = false
               /\ str_in (Healer.placeholder v) template = true.
Proof.
  split; [apply NoDup_nodup|]. intros v. apply template_vars_spec.
Qed.

Lemma template_vars_occur_witness :
  str_in (Healer.placeholder (lit "topic")) (lit "Write to {name} about {topic}.") = true.
Proof.
  apply (proj2 (template_vars_occur (lit "Write to {name} about {topic}."))).
  vm_compute. tauto.
Defined.

(** ** The schema and its validator *)

Section DictUpdate.
Variables K V : Type.
Variable eqb : K -> K -> bool.
Hypothesis eqb_eq : forall a b, eqb a b = true <-> a = b.

Lemma dict_set_get_same (k : K) (v : V) (d : dict K V) :
  dict_get eqb k (dict_set eqb k v d) = Some v.
Proof.
  induction d as [|[k' v'] d IH]; cbn.
  - now rewrite (proj2 (eqb_eq k k) eq_refl).
  - destruct (eqb k k') eqn:E; cbn; now rewrite E.
Qed.

Lemma dict_set_get_other (k k0 : K) (v : V) (d : dict K V) :
  k0 <> k -> dict_get eqb k0 (dict_set eqb k v d) = dict_get eqb k0 d.
Proof.
  intros Hne. induction d as [|[k' v'] d IH]; cbn.
  - destruct (eqb k0 k) eqn:E; [apply eqb_eq in E; contradiction|reflexivity].
  - destruct (eqb k k') eqn:E; cbn.
    + apply eqb_eq in E. subst k'.
      destruct (eqb k0 k) eqn:E0; [apply eqb_eq in E0; contradiction|reflexivity].
    + now rewrite IH.
Qed.

Lemma dict_set_keys_present (k : K) (v v0 : V) (d : dict K V) :
  dict_get eqb k d = Some v0 -> dict_keys (dict_set eqb k v d) = dict_keys d.
Proof.
  induction d as [|[k' v'] d IH]; cbn; [discriminate|].
  destruct (eqb k k') eqn:E; cbn; [reflexivity|].
  intros H. f_equal. now apply IH.
Qed.

Lemma dict_set_twice (k : K) (v : V) (d : dict K V) :
  dict_set eqb k v (dict_set eqb k v d) = dict_set eqb k v d.
Proof.
  induction d as [|[k' v'] d IH]; cbn.
  - now rewrite (proj2 (eqb_eq k k) eq_refl).
  - destruct (eqb k k') eqn:E; cbn; rewrite E; [reflexivity|]. now rewrite IH.
Qed.
End DictUpdate.

Lemma pipeline_accepts (uuid4 : nat -> N) (vars : list str) (s : str) :
  (forall v, In v vars -> str_in (Healer.placeholder v) s = true) ->
  exists healed, Healer._get_var_healer uuid4 (Healer.VarSet vars) true s = Ok healed.
Proof.
  intros Hall. unfold Healer._get_var_healer, Healer.healer.
  destruct vars as [|v0 vs] eqn:E; [now eexists|]. rewrite <- E in *.
  unfold Healer.pipe. rewrite assert_all_required_present by exact Hall. cbn [bind].
  destruct (mask_total uuid4 vars s) as [masked ->]. cbn [bind].
  rewrite strip_to_optimize_text. cbn [bind]. apply unmask_total.
Qed.

(** X8: the validator of a schema always accepts the original prompt
    itself as the improved prompt: every variable found in a prompt has its
    placeholder in that prompt, so the required-variable check passes and
    nothing else can raise. *)
Theorem original_prompt_is_accepted
    (uuid4 : nat -> N) (original_prompt : str) (data : dict str (option str)) :
  dict_get str_eqb (lit "improved_prompt") data = Some (Some original_prompt) ->
  Healer.assert_all_required (PromptSchema.required_variables original_prompt) true
    original_prompt = Ok original_prompt
  /\ exists healed,
       PromptSchema.pipeline uuid4 original_prompt original_prompt = Ok healed
       /\ PromptSchema.validate_input_variables uuid4 original_prompt data
          = PromptSchema.Validated
              (dict_set str_eqb (lit "improved_prompt") (Some healed) data).
Proof.
  intros Hget.
  assert (Hall : forall v, In v (PromptSchema.required_variables original_prompt) ->
                           str_in (Healer.placeholder v) original_prompt = true).
  { intros v Hv. now apply template_vars_spec in Hv. }
  split; [now apply assert_all_required_present|].
  destruct (pipeline_accepts uuid4 _ _ Hall) as [healed Hh].
  exists healed. split; [exact Hh|].
  unfold PromptSchema.validate_input_variables, PromptSchema.pipeline_value. rewrite Hget.
  unfold PromptSchema.pipeline. now rewrite Hh.
Qed.

Lemma original_prompt_is_accepted_witness :
  Healer.assert_all_required
    (PromptSchema.required_variables (lit "Write to {name} about {topic}.")) true
    (lit "Write to {name} about {topic}.")
  = Ok (lit "Write to {name} about {topic}.").
Proof.
  apply (proj1 (@original_prompt_is_accepted uuid4_sample
                  (lit "Write to {name} about {topic}.")
                  [(lit "analysis", Some (lit "fine"));
                   (lit "improved_prompt", Some (lit "Write to {name} about {topic}."))]
                  eq_refl)).
Defined.

Lemma findall_without_lbrace (template : str) :
  mem_char lbrace template = false -> Healer.template_vars template = [].
Proof.
  intros H.
  assert (Hp : re_pieces var_match template = map Copied template).
  { pose proof (@re_pieces_copy_run var_match template []) as E.
    rewrite !app_nil_r in E. apply E.
    intros c s Hc. unfold var_match.
    assert (Ec : Ascii.eqb c lbrace = false) by now apply (mem_char_false lbrace template).
    destruct s as [|c1 s]; [reflexivity|]. now rewrite Ec. }
  unfold Healer.template_vars, re_findall. rewrite Hp. clear.
  induction template as [|c t IH]; [reflexivity|]. exact IH.
Qed.

(** X9: a prompt without an opening brace has no required variables; its
    schema's pipeline is [escape] alone and never raises, and the
    description says that there are no variables. *)
Theorem prompt_without_braces_has_no_variables (uuid4 : nat -> N) (original_prompt : str) :
  mem_char lbrace original_prompt = false ->
  PromptSchema.required_variables original_prompt = []
  /\ (forall s, PromptSchema.pipeline uuid4 original_prompt s = Ok (escape s))
  /\ PromptSchema.prompt_description original_prompt
     = lit " The prompt section being optimized contains no input f-string variables. Any brackets {{ foo }} you emit will be escaped and not used.".
Proof.
  intros H. apply findall_without_lbrace in H.
  unfold PromptSchema.required_variables, PromptSchema.pipeline,
    PromptSchema.prompt_description, PromptSchema.required_variables.
  rewrite H. repeat split.
Qed.

Lemma prompt_without_braces_has_no_variables_witness :
  PromptSchema.pipeline uuid4_sample (lit "Summarise the text.") (lit "Use {this}")
  = Ok (lit "Use {{this}}").
Proof.
  apply (proj1 (proj2 (@prompt_without_braces_has_no_variables uuid4_sample
                         (lit "Summarise the text.") eq_refl))).
Defined.

(** X10: the validator fails with the assertion when the data has no
    [improved_prompt]; with a [TypeError] when [improved_prompt] is [None];
    with the [ValueError] that lists the missing names, in some order, when
    a required variable is missing from the improved prompt; and otherwise
    it returns the data with the healed prompt under [improved_prompt], the
    keys in the same order and every other entry untouched. *)
Theorem validator_outcomes
    (uuid4 : nat -> N) (original_prompt : str) (data : dict str (option str)) :
  let key := lit "improved_prompt" in
  let required := PromptSchema.required_variables original_prompt in
  let validate := PromptSchema.validate_input_variables uuid4 original_prompt in
  (dict_get str_eqb key data = None ->
   validate data = PromptSchema.Failed PromptSchema.AssertionError)
  /\ (dict_get str_eqb key data = Some None ->
      exists msg, validate data = PromptSchema.Failed (PromptSchema.Raised (TypeError msg)))
  /\ (forall improved,
        dict_get str_eqb key data = Some (Some improved) ->
        let missing := Healer.missing_vars required improved in
        (missing <> [] ->
         exists names,
           Permutation names missing
           /\ validate data
              = PromptSchema.Failed
                  (PromptSchema.Raised
                     (ValueError (lit "Missing required variable: "
                                    ++ join (lit ", ") names))))
        /\ (missing = [] ->
            exists healed,
              PromptSchema.pipeline uuid4 original_prompt improved = Ok healed
              /\ validate data
                 = PromptSchema.Validated (dict_set str_eqb key (Some healed) data)
              /\ dict_keys (dict_set str_eqb key (Some healed) data) = dict_keys data
              /\ dict_get str_eqb key (dict_set str_eqb key (Some healed) data)
                 = Some (Some healed)
              /\ forall k, k <> key ->
                           dict_get str_eqb k (dict_set str_eqb key (Some healed) data)
                           = dict_get str_eqb k data)).
Proof.
  intros key required validate. split; [|split].
  - intros H. unfold validate, PromptSchema.validate_input_variables. fold key.
    now rewrite H.
  - intros H. unfold validate, PromptSchema.validate_input_variables. fold key.
    rewrite H. cbn [PromptSchema.pipeline_value]. now eexists.
  - intros improved Hget missing.
    assert (Hrun : (missing = [] /\ exists r, PromptSchema.pipeline uuid4 original_prompt
                                                improved = Ok r)
                   \/ (missing <> [] /\
                       PromptSchema.pipeline uuid4 original_prompt improved
                       = Raise (ValueError (lit "Missing required variable: "
                                              ++ join (lit ", ") missing)))).
    { unfold PromptSchema.pipeline, Healer._get_var_healer, Healer.healer, missing.
      fold required. destruct required as [|v0 vs].
      - left. split; [reflexivity|now eexists].
      - apply pipe_required_run. }
    split.
    + intros Hne. destruct Hrun as [[Hnil _]|[_ Hr]]; [contradiction|].
      exists missing. split; [apply Permutation_refl|].
      unfold validate, PromptSchema.validate_input_variables. fold key.
      rewrite Hget. cbn [PromptSchema.pipeline_value]. now rewrite Hr.
    + intros Hnil. destruct Hrun as [[_ [healed Hh]]|[Hne _]]; [|contradiction].
      exists healed. split; [exact Hh|]. split.
      * unfold validate, PromptSchema.validate_input_variables. fold key.
        rewrite Hget. cbn [PromptSchema.pipeline_value]. now rewrite Hh.
      * split; [now apply dict_set_keys_present with (v0 := Some improved)|].
        split; [apply (@dict_set_get_same _ _ _ str_eqb_eq)|].
        intros k Hk. now apply (@dict_set_get_other _ _ _ str_eqb_eq).
Qed.

Lemma validator_outcomes_witness :
  PromptSchema.validate_input_variables uuid4_sample (lit "Write to {name} about {topic}.")
    [(lit "analysis", Some (lit "too long"))]
  = PromptSchema.Failed PromptSchema.AssertionError
  /\ (exists msg,
        PromptSchema.validate_input_variables uuid4_sample
          (lit "Write to {name} about {topic}.")
          [(lit "analysis", Some (lit "too long")); (lit "improved_prompt", None)]
        = PromptSchema.Failed (PromptSchema.Raised (TypeError msg)))
  /\ exists names,
       Permutation names [lit "topic"]
       /\ PromptSchema.validate_input_variables uuid4_sample
            (lit "Write to {name} about {topic}.")
            [(lit "analysis", Some (lit "too long"));
             (lit "improved_prompt", Some (lit "Write to {name}."))]
          = PromptSchema.Failed
              (PromptSchema.Raised
                 (ValueError (lit "Missing required variable: " ++ join (lit ", ") names))).
Proof.
  split; [|split].
  - apply (proj1 (validator_outcomes uuid4_sample (lit "Write to {name} about {topic}.")
                    [(lit "analysis", Some (lit "too long"))])).
    reflexivity.
  - apply (proj1 (proj2 (validator_outcomes uuid4_sample
                           (lit "Write to {name} about {topic}.")
                           [(lit "analysis", Some (lit "too long"));
                            (lit "improved_prompt", None)]))).
    reflexivity.
  - apply (proj1 (proj2 (proj2 (validator_outcomes uuid4_sample
                                  (lit "Write to {name} about {topic}.")
                                  [(lit "analysis", Some (lit "too long"));
                                   (lit "improved_prompt", Some (lit "Write to {name}."))]))
                    (lit "Write to {name}.") eq_refl)).
    vm_compute. discriminate.
Defined.

(** X11: for a prompt without variables the validator is idempotent:
    validating data that it has already returned gives the same data
    again, since [escape] changes nothing the second time. *)
Theorem validator_idempotent_without_variables
    (uuid4 : nat -> N) (original_prompt : str) (data data' : dict str (option str)) :
  PromptSchema.required_variables original_prompt = [] ->
  PromptSchema.validate_input_variables uuid4 original_prompt data
  = PromptSchema.Validated data' ->
  PromptSchema.validate_input_variables uuid4 original_prompt data'
  = PromptSchema.Validated data'.
Proof.
  intros Hreq. unfold PromptSchema.validate_input_variables.
  destruct (dict_get str_eqb (lit "improved_prompt") data) as [[improved|]|];
    cbn [PromptSchema.pipeline_value]; [|discriminate|discriminate].
  unfold PromptSchema.pipeline. rewrite Hreq. cbn [Healer._get_var_healer Healer.healer].
  intros [= <-]. rewrite (@dict_set_get_same _ _ _ str_eqb_eq).
  cbn [PromptSchema.pipeline_value]. unfold PromptSchema.pipeline. rewrite Hreq.
  cbn [Healer._get_var_healer Healer.healer].
  destruct (escape_lone_free improved) as [Hl Hr].
  rewrite (escape_fixed _ Hl Hr). now rewrite (@dict_set_twice _ _ _ str_eqb_eq).
Qed.

Lemma validator_idempotent_without_variables_witness :
  PromptSchema.validate_input_variables uuid4_sample (lit "Summarise the text.")
    [(lit "improved_prompt", Some (lit "Summarise {{it}}")); (lit "analysis", Some (lit "ok"))]
  = PromptSchema.Validated
      [(lit "improved_prompt", Some (lit "Summarise {{it}}")); (lit "analysis", Some (lit "ok"))].
Proof.
  apply (@validator_idempotent_without_variables uuid4_sample (lit "Summarise the text.")
           [(lit "improved_prompt", Some (lit "Summarise {it}"));
            (lit "analysis", Some (lit "ok"))]);
    reflexivity.
Defined.

(** ** Namespace templates, further *)

(** X12: when the configuration is omitted the resolver takes the ambient
    one: outside of a running context it raises [RuntimeError], and inside
    one the result is that of passing the ambient configuration; a supplied
    configuration that is not an empty mapping is used whatever the
    ambient one is. *)
Theorem omitted_config_is_ambient (self : Namespace.NamespaceTemplate) :
  Namespace.call None self None
  = Raise (RuntimeError (lit "Called get_config outside of a runnable context"))
  /\ (forall config ambient,
        Namespace.config_truthy config = true ->
        Namespace.call (Some config) self None = Namespace.call ambient self (Some config))
  /\ (forall config ambient ambient',
        Namespace.config_truthy config = true ->
        Namespace.call ambient self (Some config)
        = Namespace.call ambient' self (Some config)).
Proof.
  split; [reflexivity|]. split.
  - intros config ambient H. unfold Namespace.call, Namespace.get_config. now rewrite H.
  - intros config ambient ambient' H. unfold Namespace.call. now rewrite H.
Qed.

Lemma omitted_config_is_ambient_witness :
  Namespace.call (Some config_x) (Namespace.init template_axby) None
  = Namespace.call None (Namespace.init template_axby) (Some config_x).
Proof.
  apply (proj1 (proj2 (omitted_config_is_ambient (Namespace.init template_axby)))).
  reflexivity.
Defined.

Lemma map_enumerate_id (f : nat * pyobj -> pyobj) (l : list pyobj) :
  (forall ix ns, In (ix, ns) (enumerate l) -> f (ix, ns) = ns) ->
  map f (enumerate l) = l.
Proof.
  intros H. transitivity (map snd (enumerate l)).
  - apply map_ext_in. intros [ix ns] Hin. now apply H.
  - unfold enumerate. apply map_snd_combine. apply length_seq.
Qed.

(** X13: when none of the names of the positional variables is in the
    [configurable] mapping, and so when there is no such mapping, a
    supplied configuration that is not empty resolves the template to
    itself: nothing is substituted and no placeholder is lost. *)
Theorem unresolved_template_is_unchanged
    (ambient : option Namespace.RunnableConfig) (template : list pyobj)
    (config : Namespace.RunnableConfig) :
  Namespace.config_truthy config = true ->
  (forall ix name,
     dict_get Nat.eqb ix (Namespace.vars (Namespace.init template)) = Some name ->
     dict_get str_eqb name
       match Namespace.configurable config with
       | Some c => c
       | None => []
       end = None) ->
  Namespace.call ambient (Namespace.init template) (Some config) = Ok template.
Proof.
  intros Htrue Hnone.
  remember (Namespace.init template) as self eqn:Eself.
  assert (Htpl : Namespace.template self = template) by now subst self.
  unfold Namespace.call. rewrite Htrue. unfold bind.
  destruct (Namespace.vars self) as [|kv kvs] eqn:Ev; [now rewrite Htpl|].
  rewrite <- Ev in Hnone. rewrite <- Ev, Htpl. f_equal. apply map_enumerate_id.
  intros ix ns _. destruct (dict_get Nat.eqb ix (Namespace.vars self)) as [name|] eqn:E;
    [|reflexivity].
  unfold Namespace.get_default. now rewrite (Hnone _ _ E).
Qed.

Lemma unresolved_template_is_unchanged_witness :
  Namespace.call None (Namespace.init template_axby) (Some config_tags_only)
  = Ok template_axby.
Proof.
  apply unresolved_template_is_unchanged; [reflexivity|].
  intros ix name _. reflexivity.
Defined.

Lemma lstrip_suffix (chars s : str) : exists p, s = p ++ Namespace.lstrip chars s.
Proof.
  induction s as [|c s [p IH]]; [now exists []|]. cbn [Namespace.lstrip].
  destruct (mem_char c chars); [|now exists []].
  exists (c :: p). cbn. now f_equal.
Qed.

Lemma lstrip_hd (chars s : str) (c : ascii) :
  hd_error (Namespace.lstrip chars s) = Some c -> mem_char c chars = false.
Proof.
  induction s as [|d s IH]; cbn [Namespace.lstrip]; [discriminate|].
  destruct (mem_char d chars) eqn:E; [exact IH|]. cbn. now intros [= <-].
Qed.

Lemma lstrip_all (chars s : str) :
  forallb (fun c => mem_char c chars) s = true -> Namespace.lstrip chars s = [].
Proof.
  induction s as [|c s IH]; cbn [forallb Namespace.lstrip]; [reflexivity|].
  intros H. apply andb_true_iff in H. destruct H as [Hc Hs]. now rewrite Hc, IH.
Qed.

Lemma strip_ends (chars s : str) (c : ascii) :
  (hd_error (Namespace.strip chars s) = Some c -> mem_char c chars = false)
  /\ (hd_error (rev (Namespace.strip chars s)) = Some c -> mem_char c chars = false).
Proof.
  unfold Namespace.strip, Namespace.rstrip.
  set (t := Namespace.lstrip chars s).
  split.
  - destruct (lstrip_suffix chars (rev t)) as [p Hp].
    assert (Ht : t = rev (Namespace.lstrip chars (rev t)) ++ rev p).
    { rewrite <- rev_app_distr, <- Hp. now rewrite rev_involutive. }
    destruct (rev (Namespace.lstrip chars (rev t))) as [|x name] eqn:E; [discriminate|].
    cbn. intros [= <-]. apply (lstrip_hd chars s). fold t. now rewrite Ht.
  - rewrite rev_involutive. apply lstrip_hd.
Qed.

(** X14: the key of a positional variable never begins or ends with a
    brace, however many braces the segment has at its ends; the key of a
    segment made of braces only is the empty string. *)
Theorem key_has_no_brace_at_its_ends (ns : pyobj) (name : str) :
  Namespace._get_key ns = Some name ->
  (forall c, hd_error name = Some c -> is_brace c = false)
  /\ (forall c, hd_error (rev name) = Some c -> is_brace c = false)
  /\ (forall s, ns = PStr s -> forallb is_brace s = true -> name = []).
Proof.
  destruct ns as [|s|m|l|l]; try discriminate. unfold Namespace._get_key.
  destruct (prefixb (lit "{") s); [|discriminate]. intros [= <-].
  assert (Hmem : forall c, mem_char c (lit "{}") = is_brace c).
  { intros c. unfold mem_char, is_brace. cbn [lit list_ascii_of_string existsb].
    now rewrite orb_false_r. }
  split; [|split].
  - intros c H. rewrite <- Hmem. now apply (proj1 (strip_ends (lit "{}") s c)).
  - intros c H. rewrite <- Hmem. now apply (proj2 (strip_ends (lit "{}") s c)).
  - intros s' [= <-] Hall. unfold Namespace.strip, Namespace.rstrip.
    assert (Hs : Namespace.lstrip (lit "{}") s = []).
    { apply lstrip_all. apply forallb_forall. intros c Hc. rewrite Hmem.
      now apply (proj1 (forallb_forall _ _) Hall). }
    unfold lit in Hs. cbn [list_ascii_of_string] in Hs. rewrite Hs. reflexivity.
Qed.

Lemma key_has_no_brace_at_its_ends_witness :
  Namespace._get_key (PStr (lit "{{a}{b}}}")) = Some (lit "a}{b")
  /\ is_brace "b"%char = false.
Proof.
  split; [reflexivity|].
  apply (proj1 (proj2 (@key_has_no_brace_at_its_ends (PStr (lit "{{a}{b}}}"))
                         (lit "a}{b") eq_refl)) "b"%char).
  reflexivity.
Defined.

(** ** Session formatting, further *)

Section SessionOutput.
Import Sessions.
Variable uuid4 : nat -> N.
Variable merge_message_runs : pyobj -> result (list message).
Variable pretty_repr : message -> str.
Variable iter_message : message -> list pyobj.
Variable format_other : pyobj -> str.

Local Abbreviation format :=
  (format_sessions uuid4 merge_message_runs pretty_repr iter_message format_other).
Local Abbreviation conversation_of := (get_conversation merge_message_runs pretty_repr).

Lemma format_each_pairs (entries : list (pyobj * (str * str))) :
  Forall (fun e => conversation_of (fst e) = Ok (fst (snd e))) entries ->
  forall k,
    format_each uuid4 merge_message_runs pretty_repr iter_message format_other k
      (map (fun e => PTuple [fst e; PStr (snd (snd e))]) entries)
    = Ok (expected_blocks uuid4 k (map snd entries)).
Proof.
  induction 1 as [|[session [conversation feedback]] entries Hc _ IH]; intros k;
    [reflexivity|].
  cbn [map fst snd format_each expected_blocks] in *.
  unfold unpack2, py_iter. cbn [bind]. rewrite Hc. cbn [bind]. rewrite IH. cbn [bind].
  destruct feedback as [|c fb]; reflexivity.
Qed.
End SessionOutput.

(** X15: for a list of [(session, feedback)] pairs that is not empty and
    whose conversations render, [format_sessions] gives one block per pair,
    in the order of the input and joined by blank lines; the k-th block
    carries the k-th identifier drawn and holds the feedback part exactly
    when the feedback is not empty. *)
Theorem format_sessions_of_pairs
    (uuid4 : nat -> N) (merge_message_runs : pyobj -> result (list message))
    (pretty_repr : message -> str) (iter_message : message -> list pyobj)
    (format_other : pyobj -> str) (entries : list (pyobj * (str * str))) :
  entries <> [] ->
  Forall (fun e => Sessions.get_conversation merge_message_runs pretty_repr (fst e)
                   = Ok (fst (snd e))) entries ->
  Sessions.format_sessions uuid4 merge_message_runs pretty_repr iter_message format_other
    (PList (map (fun e => PTuple [fst e; PStr (snd (snd e))]) entries))
  = Ok (join [newline; newline] (expected_blocks uuid4 0 (map snd entries))).
Proof.
  intros Hne Hconv. destruct entries as [|e entries]; [congruence|].
  unfold Sessions.format_sessions.
  cbn [map truthy List.length Nat.eqb negb Sessions.normalize Sessions.first_is_list
       Sessions.is_list Sessions.py_iter bind].
  change (PTuple [fst e; PStr (snd (snd e))]
            :: map (fun e0 => PTuple [fst e0; PStr (snd (snd e0))]) entries)
    with (map (fun e0 : pyobj * (str * str) => PTuple [fst e0; PStr (snd (snd e0))])
              (e :: entries)).
  rewrite format_each_pairs by exact Hconv. reflexivity.
Qed.

Lemma format_sessions_of_pairs_witness :
  Sessions.format_sessions uuid4_sample merge_sample pretty_sample message_fields
    format_other_sample
    (PList [PTuple [PList [PMsg hello]; PStr (lit "good")];
            PTuple [PList [PMsg hello]; PStr []]])
  = Ok (join [newline; newline]
          (expected_blocks uuid4_sample 0
             [(lit "human: hello", lit "good"); (lit "human: hello", [])])).
Proof.
  apply (@format_sessions_of_pairs uuid4_sample merge_sample pretty_sample message_fields
           format_other_sample
           [(PList [PMsg hello], (lit "human: hello", lit "good"));
            (PList [PMsg hello], (lit "human: hello", []))]).
  - discriminate.
  - repeat constructor.
Defined.

(** X16: the three shapes that the normalisation handles agree: a list of
    sessions is formatted as the list of its sessions paired with an empty
    feedback, and a single pair as the list that holds only that pair. *)
Theorem handled_shapes_agree
    (uuid4 : nat -> N) (merge_message_runs : pyobj -> result (list message))
    (pretty_repr : message -> str) (iter_message : message -> list pyobj)
    (format_other : pyobj -> str) :
  let format :=
    Sessions.format_sessions uuid4 merge_message_runs pretty_repr iter_message
      format_other in
  (forall sessions,
     Sessions.first_is_list sessions = true ->
     format (PList sessions)
     = format (PList (map (fun session => PTuple [session; PStr []]) sessions)))
  /\ (forall session feedback,
        format (PTuple [PList session; feedback])
        = format (PList [PTuple [PList session; feedback]])).
Proof.
  intros format. split.
  - intros [|first rest] H; [discriminate|].
    unfold format, Sessions.format_sessions.
    cbn [map truthy List.length Nat.eqb negb Sessions.normalize]. rewrite H.
    reflexivity.
  - intros session feedback. reflexivity.
Qed.

Lemma handled_shapes_agree_witness :
  Sessions.format_sessions uuid4_sample merge_sample pretty_sample message_fields
    format_other_sample (PList [PList [PMsg hello]; PList []])
  = Sessions.format_sessions uuid4_sample merge_sample pretty_sample message_fields
      format_other_sample
      (PList [PTuple [PList [PMsg hello]; PStr []]; PTuple [PList []; PStr []]]).
Proof.
  apply (proj1 (handled_shapes_agree uuid4_sample merge_sample pretty_sample message_fields
                  format_other_sample) [PList [PMsg hello]; PList []]).
  reflexivity.
Defined.
